(** * Cosmos Genesis Python SDK: query builder and query executor

    A shallow embedding of [cosmos_genesis/query.py] (the [QueryBuilder]
    class) and of the query path of [cosmos_genesis/client.py]
    ([CosmosClient.__init__], [query_galaxy], [_execute_query],
    [_rows_to_dicts]), with the properties the specification states
    about them.

    Python [str] values are modelled as [string] (8-bit characters); every
    literal of the source is ASCII, and [str.upper] is modelled on the ASCII
    letters.  Python [int] is [Z].  Dictionaries are [gmap]s.  The remote
    query service and the wall clock are an explicit environment, and the
    calls issued to the service are recorded in a log. *)

From Stdlib Require Import ZArith QArith Ascii String DecimalString Lia.
From Stdlib Require DecimalPos DecimalZ.
From stdpp Require Import base option list strings gmap.

Local Open Scope string_scope.

(** ** Python string operations used by the source *)

Module PyStr.

(** [c.upper()] on one ASCII character. *)
Definition upper_ascii (c : ascii) : ascii :=
  let n := nat_of_ascii c in
  if (97 <=? n)%nat && (n <=? 122)%nat then ascii_of_nat (n - 32) else c.

(** [s.upper()] *)
Fixpoint upper (s : string) : string :=
  match s with
  | EmptyString => EmptyString
  | String c s' => String (upper_ascii c) (upper s')
  end.

(** [sub in s] *)
Fixpoint contains (sub s : string) : bool :=
  String.prefix sub s ||
  match s with
  | EmptyString => false
  | String _ s' => contains sub s'
  end.

(** [s[n:]] *)
Fixpoint drop (n : nat) (s : string) : string :=
  match n, s with
  | O, _ => s
  | S _, EmptyString => EmptyString
  | S k, String _ s' => drop k s'
  end.

(** [s.replace(old, new, 1)]: only the leftmost occurrence is replaced. *)
Fixpoint replace_first (old new s : string) : string :=
  if String.prefix old s then new +:+ drop (String.length old) s
  else match s with
       | EmptyString => EmptyString
       | String c s' => String c (replace_first old new s')
       end.

(** [s.replace(old, new)]: every non-overlapping occurrence, scanning from
    the left.  [skip] counts the characters of a matched occurrence that
    are still to be consumed.  With an empty [old], Python puts [new]
    before every character and at the end. *)
Fixpoint replace_from (skip : nat) (old new s : string) : string :=
  match s with
  | EmptyString =>
      match old with EmptyString => new | _ => EmptyString end
  | String c s' =>
      match skip with
      | S k => replace_from k old new s'
      | O =>
          if String.prefix old s then
            match old with
            | EmptyString => new +:+ String c (replace_from 0 old new s')
            | String _ old' => new +:+ replace_from (String.length old') old new s'
            end
          else String c (replace_from 0 old new s')
      end
  end.

Definition replace (old new s : string) : string := replace_from 0 old new s.

(** [str(n)] for an [int]. *)
Definition str_of_int (n : Z) : string := NilZero.string_of_int (Z.to_int n).

(** [sep.join(parts)] *)
Fixpoint join (sep : string) (parts : list string) : string :=
  match parts with
  | [] => EmptyString
  | [p] => p
  | p :: rest => p +:+ sep +:+ join sep rest
  end.

(** Truthiness of a [str]: the empty string is false. *)
Definition truthy (s : string) : bool :=
  match s with EmptyString => false | _ => true end.

(** Truthiness of an [Optional[str]]: [None] and [""] are false. *)
Definition truthy_opt (o : option string) : bool :=
  match o with None => false | Some s => truthy s end.

(** [s.find(sub)], with [None] for -1. *)
Fixpoint find (sub s : string) : option nat :=
  if String.prefix sub s then Some O
  else match s with
       | EmptyString => None
       | String _ s' => option_map S (find sub s')
       end.

(** [old] occurs in [pre +:+ old +:+ post] at offset [|pre|] and at no
    smaller offset. *)
Definition leftmost (old pre post : string) : Prop :=
  forall pre' post',
    pre +:+ old +:+ post = pre' +:+ old +:+ post' ->
    (String.length pre <= String.length pre')%nat.

End PyStr.

(** ** Exceptions ([exceptions.py], and the built-in ones the source raises) *)

Inductive exn : Type :=
  | AuthenticationError (msg : string)
  | QueryError (msg : string)
  | ValueError (msg : string)
  | OtherException (msg : string).

(** [str(e)] *)
Definition exn_message (e : exn) : string :=
  match e with
  | AuthenticationError m | QueryError m | ValueError m | OtherException m => m
  end.

(** ** [query.py]: the query builder *)

Module QueryBuilder.

(** The instance attributes set by [__init__]. *)
Record t : Type := mk {
  _select_fields : list string;
  _from_table : option string;
  _where_conditions : list string;
  _order_by : option string;
  _limit : option Z;
  _offset : option Z
}.

(** [QueryBuilder()] *)
Definition init : t :=
  {| _select_fields := []; _from_table := None; _where_conditions := [];
     _order_by := None; _limit := None; _offset := None |}.

(** A method call on a builder: it returns a value or raises, and leaves
    the instance in some state. *)
Definition method (A : Type) : Type := t -> (exn + A) * t.

Definition ret {A} (a : A) : method A := fun self => (inr a, self).
Definition raise {A} (e : exn) : method A := fun self => (inl e, self).
Definition bind {A B} (m : method A) (k : A -> method B) : method B :=
  fun self =>
    match m self with
    | (inl e, self') => (inl e, self')
    | (inr a, self') => k a self'
    end.
Definition get : method t := fun self => (inr self, self).
Definition put (self' : t) : method unit := fun _ => (inr tt, self').

Declare Scope method_scope.
Delimit Scope method_scope with method.
Notation "'let*' x ':=' m 'in' k" := (bind m (fun x => k))
  (at level 10, x name, m at level 100, k at level 200) : method_scope.
Local Open Scope method_scope.

(** The mutators return [self]; here they return [tt] and the new state. *)

(** [self._select_fields.extend(fields)] *)
Definition select (fields : list string) : method unit :=
  let* self := get in
  put {| _select_fields := (_select_fields self ++ fields)%list;
         _from_table := _from_table self;
         _where_conditions := _where_conditions self;
         _order_by := _order_by self;
         _limit := _limit self; _offset := _offset self |}.

Definition from_table (table : string) : method unit :=
  let* self := get in
  put {| _select_fields := _select_fields self;
         _from_table := Some table;
         _where_conditions := _where_conditions self;
         _order_by := _order_by self;
         _limit := _limit self; _offset := _offset self |}.

(** [self._where_conditions.append(condition)] *)
Definition where_ (condition : string) : method unit :=
  let* self := get in
  put {| _select_fields := _select_fields self;
         _from_table := _from_table self;
         _where_conditions := (_where_conditions self ++ [condition])%list;
         _order_by := _order_by self;
         _limit := _limit self; _offset := _offset self |}.

(** [self._order_by = f"{field} {direction}"] *)
Definition order_by (field direction : string) : method unit :=
  let* self := get in
  put {| _select_fields := _select_fields self;
         _from_table := _from_table self;
         _where_conditions := _where_conditions self;
         _order_by := Some (field +:+ " " +:+ direction);
         _limit := _limit self; _offset := _offset self |}.

(** The default value of [direction]. *)
Definition ASC : string := "ASC".

Definition limit (count : Z) : method unit :=
  let* self := get in
  put {| _select_fields := _select_fields self;
         _from_table := _from_table self;
         _where_conditions := _where_conditions self;
         _order_by := _order_by self;
         _limit := Some count; _offset := _offset self |}.

Definition offset (count : Z) : method unit :=
  let* self := get in
  put {| _select_fields := _select_fields self;
         _from_table := _from_table self;
         _where_conditions := _where_conditions self;
         _order_by := _order_by self;
         _limit := _limit self; _offset := Some count |}.

(** [query_parts.append(part)] guarded by [cond]. *)
Definition append_if (cond : bool) (part : string) (query_parts : list string) :
    list string :=
  if cond then (query_parts ++ [part])%list else query_parts.

(** [build]: the two checks, then the list [query_parts] grown clause by
    clause and joined with single spaces.  Nothing is assigned to [self]. *)
Definition build : method string :=
  let* self := get in
  match _select_fields self with
  | [] => raise (ValueError "SELECT fields required")
  | _ :: _ =>
      if negb (PyStr.truthy_opt (_from_table self)) then
        raise (ValueError "FROM table required")
      else
        let query_parts :=
          ["SELECT " +:+ PyStr.join ", " (_select_fields self)] in
        let query_parts :=
          (query_parts ++ ["FROM " +:+ default "" (_from_table self)])%list in
        let query_parts :=
          append_if (match _where_conditions self with [] => false | _ => true end)
            ("WHERE " +:+ PyStr.join " AND " (_where_conditions self)) query_parts in
        let query_parts :=
          append_if (PyStr.truthy_opt (_order_by self))
            ("ORDER BY " +:+ default "" (_order_by self)) query_parts in
        let query_parts :=
          match _limit self with
          | Some n => (query_parts ++ ["LIMIT " +:+ PyStr.str_of_int n])%list
          | None => query_parts
          end in
        let query_parts :=
          match _offset self with
          | Some n => (query_parts ++ ["OFFSET " +:+ PyStr.str_of_int n])%list
          | None => query_parts
          end in
        ret (PyStr.join " " query_parts)
  end.

(** [__str__] *)
Definition __str__ : method string := build.

(** The six mutators, as data, to speak about any of them at once. *)
Inductive mutator : Type :=
  | Select (fields : list string)
  | FromTable (table : string)
  | Where (condition : string)
  | OrderBy (field direction : string)
  | Limit (count : Z)
  | Offset (count : Z).

Definition call (m : mutator) : method unit :=
  match m with
  | Select fields => select fields
  | FromTable table => from_table table
  | Where condition => where_ condition
  | OrderBy field direction => order_by field direction
  | Limit count => limit count
  | Offset count => offset count
  end.

(** A chain of mutator calls, left to right, stopping at the first
    exception. *)
Fixpoint chain (ms : list mutator) : method unit :=
  match ms with
  | [] => ret tt
  | m :: rest => let* _ := call m in chain rest
  end.

(** [QueryBuilder().m1(...). ... .mk(...).build()] *)
Definition build_after (ms : list mutator) : (exn + string) * t :=
  (let* _ := chain ms in build) init.

(** The clauses of the specification's rendering, each with its leading
    space, empty when the builder holds no data for it. *)
Definition where_clause (self : t) : string :=
  match _where_conditions self with
  | [] => ""
  | cs => " WHERE " +:+ PyStr.join " AND " cs
  end.

Definition order_clause (self : t) : string :=
  match _order_by self with
  | None | Some EmptyString => ""
  | Some ob => " ORDER BY " +:+ ob
  end.

Definition limit_clause (self : t) : string :=
  match _limit self with
  | None => ""
  | Some n => " LIMIT " +:+ PyStr.str_of_int n
  end.

Definition offset_clause (self : t) : string :=
  match _offset self with
  | None => ""
  | Some n => " OFFSET " +:+ PyStr.str_of_int n
  end.

(** What a chain of mutator calls leaves in each attribute, read off the
    calls: the arguments of the [select] calls in order, those of the
    [where] calls in order, and the argument of the last call of each of the
    other mutators, if any. *)
Fixpoint selected (ms : list mutator) : list string :=
  match ms with
  | [] => []
  | Select fields :: rest => (fields ++ selected rest)%list
  | _ :: rest => selected rest
  end.

Fixpoint conditions (ms : list mutator) : list string :=
  match ms with
  | [] => []
  | Where condition :: rest => condition :: conditions rest
  | _ :: rest => conditions rest
  end.

Fixpoint last_table (ms : list mutator) (before : option string) : option string :=
  match ms with
  | [] => before
  | FromTable table :: rest => last_table rest (Some table)
  | _ :: rest => last_table rest before
  end.

Fixpoint last_order (ms : list mutator) (before : option string) : option string :=
  match ms with
  | [] => before
  | OrderBy field direction :: rest =>
      last_order rest (Some (field +:+ " " +:+ direction))
  | _ :: rest => last_order rest before
  end.

Fixpoint last_limit (ms : list mutator) (before : option Z) : option Z :=
  match ms with
  | [] => before
  | Limit count :: rest => last_limit rest (Some count)
  | _ :: rest => last_limit rest before
  end.

Fixpoint last_offset (ms : list mutator) (before : option Z) : option Z :=
  match ms with
  | [] => before
  | Offset count :: rest => last_offset rest (Some count)
  | _ :: rest => last_offset rest before
  end.

(** The attribute a mutator assigns to. *)
Inductive attribute : Type :=
  | SelectFields | FromTableName | WhereConditions | OrderClause
  | LimitCount | OffsetCount.

Definition assigns (m : mutator) : attribute :=
  match m with
  | Select _ => SelectFields
  | FromTable _ => FromTableName
  | Where _ => WhereConditions
  | OrderBy _ _ => OrderClause
  | Limit _ => LimitCount
  | Offset _ => OffsetCount
  end.

(** The builder after [QueryBuilder().select("a").from_table("")]. *)
Definition empty_table_name : t :=
  snd (chain [Select ["a"]; FromTable ""] init).

End QueryBuilder.

(** ** [client.py]: the client and its query path *)

Module CosmosClient.

(** *** The environment of a client *)

(** The calls that leave the process, in the order they are issued. *)
Inductive call : Type :=
  | CreateClient (service region_name : string)
  | StartQueryExecution (QueryString Database OutputLocation : string)
  | GetQueryExecution (QueryExecutionId : string)
  | Sleep (seconds : Z)
  | Paginate (operation QueryExecutionId : string).

(** [status["QueryExecution"]["Status"]]: the state, and the reason when
    the service gives one. *)
Record status : Type := {
  State : string;
  StateChangeReason : option string
}.

(** What one iteration of the poll loop observes: the answer to its
    status check, and [time.time() - start_time] in seconds at that
    moment (the iteration does nothing but comparisons between the status
    check of line 208 and the clock reading of line 219; floating-point
    seconds are idealised as rationals). *)
Record poll : Type := {
  response : status;
  elapsed : Q
}.

(** One cell of a result row is a dictionary; a row is its ["Data"] list;
    a page is its [["ResultSet"]["Rows"]] list. *)
Abbreviation cell := (gmap string string) (only parsing).
Abbreviation row := (list (gmap string string)) (only parsing).
Abbreviation page := (list (list (gmap string string))) (only parsing).

(** The remote query service as one call of [_execute_query] meets it:
    [submission] is what [start_query_execution] does (it raises, or returns
    the [QueryExecutionId]), [polls] is what the successive iterations of the
    poll loop observe, [pages] are the result pages in remote order.  The
    status and result calls are taken not to raise. *)
Record remote : Type := {
  submission : exn + string;
  polls : list poll;
  pages : list page
}.

(** The outcome of a call: a value, an exception, or no outcome within the
    environment given (the poll loop is still waiting when [polls] ends). *)
Inductive result (A : Type) : Type :=
  | Return (a : A)
  | Raise (e : exn)
  | Waiting.
Arguments Return {A} a.
Arguments Raise {A} e.
Arguments Waiting {A}.

(** *** The client *)

Record t : Type := {
  api_key : option string;
  region : string;
  timeout : Z;
  database : string;
  results_bucket : string
}.

(** [a or b] on optional strings. *)
Definition or_else (a b : option string) : option string :=
  if PyStr.truthy_opt a then a else b.

(** [__init__]: the credential check comes first; the two service
    clients are created only after it. *)
Definition __init__ (environ : gmap string string)
    (api_key : option string) (region : string) (timeout : Z)
    (database : string) : (exn + t) * list call :=
  let api_key := or_else api_key (environ !! "COSMOS_API_KEY") in
  if negb (PyStr.truthy_opt api_key) then
    (inl (AuthenticationError
       "API key required. Pass api_key parameter or set COSMOS_API_KEY environment variable."),
     [])
  else
    (inr {| api_key := api_key; region := region; timeout := timeout;
            database := database;
            results_bucket := "cosmos-query-results-" +:+ region |},
     [CreateClient "athena" region; CreateClient "s3" region]).

(** *** [query_galaxy], lines 109-129: the textual rewriting *)

(** [f"galaxy_id = '{galaxy_id}'"] *)
Definition predicate (galaxy_id : string) : string :=
  "galaxy_id = '" +:+ galaxy_id +:+ "'".

(** The [for keyword in ...: ... break ... else: ...] of lines 114-122. *)
Fixpoint inject_before (keywords : list string) (galaxy_id query : string) : string :=
  match keywords with
  | [] => query +:+ " WHERE " +:+ predicate galaxy_id
  | keyword :: rest =>
      if PyStr.contains keyword (PyStr.upper query) then
        PyStr.replace_first keyword
          ("WHERE " +:+ predicate galaxy_id +:+ " " +:+ keyword) query
      else inject_before rest galaxy_id query
  end.

(** Lines 110-122. *)
Definition inject_galaxy (galaxy_id query : string) : string :=
  if PyStr.contains "WHERE" (PyStr.upper query) then
    PyStr.replace_first "WHERE" ("WHERE " +:+ predicate galaxy_id +:+ " AND") query
  else inject_before ["LIMIT"; "ORDER BY"; "GROUP BY"] galaxy_id query.

(** [f" AND universe_time = {universe_time}"] *)
Definition time_clause (universe_time : Z) : string :=
  " AND universe_time = " +:+ PyStr.str_of_int universe_time.

(** Lines 125-129. *)
Definition inject_time (galaxy_id : string) (universe_time : Z) (query : string) : string :=
  if (0 <? universe_time)%Z then
    PyStr.replace (predicate galaxy_id)
      (predicate galaxy_id +:+ time_clause universe_time) query
  else query.

(** The SQL text [query_galaxy] hands to [_execute_query]. *)
Definition rewrite (galaxy_id query : string) (universe_time : Z) : string :=
  inject_time galaxy_id universe_time (inject_galaxy galaxy_id query).

(** *** [_execute_query] *)

Definition is_terminal (state : string) : bool :=
  String.eqb state "SUCCEEDED" || String.eqb state "FAILED"
  || String.eqb state "CANCELLED".

(** [time.time() - start_time > self.timeout] *)
Definition timed_out (timeout : Z) (elapsed : Q) : bool :=
  negb (Qle_bool elapsed (inject_Z timeout)).

(** The [while True] loop of lines 207-222, one iteration for each
    element of [polls].  [Return tt] stands for the [break]. *)
Fixpoint wait (timeout : Z) (query_id : string) (polls : list poll)
    : result unit * list call :=
  match polls with
  | [] => (Waiting, [])
  | p :: rest =>
      let state := State (response p) in
      if String.eqb state "SUCCEEDED" then
        (Return tt, [GetQueryExecution query_id])
      else if String.eqb state "FAILED" || String.eqb state "CANCELLED" then
        let reason := default "Unknown error" (StateChangeReason (response p)) in
        (Raise (QueryError ("Query failed: " +:+ reason)),
         [GetQueryExecution query_id])
      else if timed_out timeout (elapsed p) then
        (Raise (QueryError ("Query timeout after " +:+ PyStr.str_of_int timeout +:+ "s")),
         [GetQueryExecution query_id])
      else
        let '(r, log) := wait timeout query_id rest in
        (r, GetQueryExecution query_id :: Sleep 1 :: log)
  end.

(** [tuple(col.get("VarCharValue") for col in row["Data"])] *)
Definition decode_row (r : row) : list (option string) :=
  map (fun col : gmap string string => col !! "VarCharValue") r.

(** The inner loop of lines 228-229: the rows of one page but the first
    are appended to [results]. *)
Definition fetch_page (results : list (list (option string))) (p : page)
    : list (list (option string)) :=
  fold_left (fun results r => (results ++ [decode_row r])%list) (tail p) results.

(** Lines 225-229. *)
Definition fetch (ps : list page) : list (list (option string)) :=
  fold_left fetch_page ps [].

(** The [except Exception] clause of lines 233-236. *)
Definition translate (e : exn) : exn :=
  match e with
  | QueryError _ | AuthenticationError _ => e
  | _ => QueryError ("Query execution failed: " +:+ exn_message e)
  end.

Definition _execute_query (self : t) (env : remote) (query : string)
    : result (list (list (option string))) * list call :=
  let start :=
    StartQueryExecution query (database self)
      ("s3://" +:+ results_bucket self +:+ "/queries/") in
  match submission env with
  | inl e => (Raise (translate e), [start])
  | inr query_id =>
      match wait (timeout self) query_id (polls env) with
      | (Return _, log) =>
          (Return (fetch (pages env)),
           (start :: log ++ [Paginate "get_query_results" query_id])%list)
      | (Raise e, log) => (Raise (translate e), start :: log)
      | (Waiting, log) => (Waiting, start :: log)
      end
  end.

(** *** [_rows_to_dicts] *)

(** [[f"col{i}" for i in range(num_cols)]] *)
Definition col_names (num_cols : nat) : list string :=
  map (fun i => "col" +:+ PyStr.str_of_int (Z.of_nat i)) (seq 0 num_cols).

Definition _rows_to_dicts (rows : list (list (option string)))
    : list (gmap string (option string)) :=
  match rows with
  | [] => []
  | first :: _ =>
      let names := col_names (length first) in
      map (fun r => list_to_map (zip names r)) rows
  end.

(** *** [query_galaxy] *)

Definition query_galaxy (self : t) (env : remote)
    (galaxy_id query : string) (universe_time : Z)
    : result (list (gmap string (option string))) * list call :=
  let query := rewrite galaxy_id query universe_time in
  match _execute_query self env query with
  | (Return results, log) => (Return (_rows_to_dicts results), log)
  | (Raise e, log) => (Raise e, log)
  | (Waiting, log) => (Waiting, log)
  end.

(** The status checks among the calls of a log. *)
Definition is_status_check (c : call) : bool :=
  match c with GetQueryExecution _ => true | _ => false end.

Definition status_checks (log : list call) : nat :=
  length (List.filter is_status_check log).





(** *** [query_to_dataframe], [list_galaxies] *)

(** The built-in exceptions these two methods raise themselves, outside the
    [try] of [_execute_query]. *)
Inductive builtin_error : Type :=
  | ImportError (msg : string)
  | IndexError (msg : string)
  | TypeError (msg : string).

(** The outcome of a method that can also end in a built-in exception. *)
Inductive outcome (A : Type) : Type :=
  | Value (a : A)
  | Error (e : exn)
  | BuiltinError (e : builtin_error)
  | Unfinished.
Arguments Value {A} a.
Arguments Error {A} e.
Arguments BuiltinError {A} e.
Arguments Unfinished {A}.

(** [pd.DataFrame(results)], kept as the records it was built from. *)
Inductive DataFrame : Type :=
  | pd_DataFrame (data : list (gmap string (option string))).

(** [HAS_PANDAS] is the module-level flag set by the guarded import. *)
Definition query_to_dataframe (HAS_PANDAS : bool) (self : t) (env : remote)
    (galaxy_id query : string) (universe_time : Z)
    : outcome DataFrame * list call :=
  if negb HAS_PANDAS then
    (BuiltinError (ImportError
       "pandas is required for query_to_dataframe(). Install with: pip install pandas"),
     [])
  else
    match query_galaxy self env galaxy_id query universe_time with
    | (Return results, log) => (Value (pd_DataFrame results), log)
    | (Raise e, log) => (Error e, log)
    | (Waiting, log) => (Unfinished, log)
    end.

(** One entry of the list [list_galaxies] returns. *)
Record galaxy : Type := {
  galaxy_id : option string;
  system_count : Z
}.

Definition newline : string := String (ascii_of_nat 10) EmptyString.

(** The f-string of lines 68-75, with its line breaks and indentation. *)
Definition list_galaxies_query (database : string) : string :=
  newline +:+ "        SELECT DISTINCT"
  +:+ newline +:+ "            galaxy_id,"
  +:+ newline +:+ "            COUNT(*) as system_count"
  +:+ newline +:+ "        FROM " +:+ database +:+ ".starsystem"
  +:+ newline +:+ "        GROUP BY galaxy_id"
  +:+ newline +:+ "        ORDER BY galaxy_id"
  +:+ newline +:+ "        ".

Section list_galaxies.

(** The built-in [int] on a string: the integer, or the exception raised. *)
Variable int_ : string -> exn + Z.

(** [{"galaxy_id": row[0], "system_count": int(row[1])}] *)
Definition galaxy_of_row (r : list (option string)) : outcome galaxy :=
  match r !! 0%nat with
  | None => BuiltinError (IndexError "tuple index out of range")
  | Some id =>
      match r !! 1%nat with
      | None => BuiltinError (IndexError "tuple index out of range")
      | Some None =>
          BuiltinError (TypeError
            "int() argument must be a string, a bytes-like object or a real number, not 'NoneType'")
      | Some (Some text) =>
          match int_ text with
          | inl e => Error e
          | inr n => Value {| galaxy_id := id; system_count := n |}
          end
      end
  end.

(** A row with a first cell, a second cell that is a string, and a count
    that [int] accepts. *)
Definition well_formed (r : list (option string)) : Prop :=
  exists id text n,
    r !! 0%nat = Some id /\ r !! 1%nat = Some (Some text) /\ int_ text = inr n.

(** The list comprehension of lines 78-84: the first row that raises ends
    it. *)
Fixpoint galaxies_of_rows (rows : list (list (option string)))
    : outcome (list galaxy) :=
  match rows with
  | [] => Value []
  | r :: rest =>
      match galaxy_of_row r with
      | Value g =>
          match galaxies_of_rows rest with
          | Value gs => Value (g :: gs)
          | Error e => Error e
          | BuiltinError e => BuiltinError e
          | Unfinished => Unfinished
          end
      | Error e => Error e
      | BuiltinError e => BuiltinError e
      | Unfinished => Unfinished
      end
  end.

Definition list_galaxies (self : t) (env : remote)
    : outcome (list galaxy) * list call :=
  match _execute_query self env (list_galaxies_query (database self)) with
  | (Return results, log) => (galaxies_of_rows results, log)
  | (Raise e, log) => (Error e, log)
  | (Waiting, log) => (Unfinished, log)
  end.

End list_galaxies.

(** The log of [n] iterations that went on to sleep. *)
Fixpoint polling_log (query_id : string) (n : nat) : list call :=
  match n with
  | O => []
  | S k => GetQueryExecution query_id :: Sleep 1 :: polling_log query_id k
  end.

(** All rows of all pages, header rows included. *)
Definition total_rows (ps : list page) : nat :=
  foldr (fun p n => (length p + n)%nat) O ps.

(** Concrete environments. *)

Definition running : status := {| State := "RUNNING"; StateChangeReason := None |}.
Definition succeeded : status := {| State := "SUCCEEDED"; StateChangeReason := None |}.

(** A client with a timeout of two seconds. *)
Definition two_second_client : t :=
  {| api_key := Some "key"; region := "us-east-1"; timeout := 2;
     database := "cosmological_production";
     results_bucket := "cosmos-query-results-us-east-1" |}.

Definition text (s : string) : gmap string string := {[ "VarCharValue" := s ]}.

Definition two_pages : list page :=
  [ [ [text "id"; text "mass"]; [text "s1"; text "10"]; [text "s2"; ∅] ];
    [ [text "id"; text "mass"]; [text "s3"; text "7"] ] ].

(** The query is still running two seconds after submission and has
    succeeded when its status is next checked, one second later. *)
Definition late_success : remote :=
  {| submission := inr "q-1";
     polls := [ {| response := running; elapsed := 0 |};
                {| response := running; elapsed := 1 |};
                {| response := running; elapsed := 2 |};
                {| response := succeeded; elapsed := 3 |} ];
     pages := two_pages |}.

(** The query never leaves the running state. *)
Definition never_done : remote :=
  {| submission := inr "q-1";
     polls := [ {| response := running; elapsed := 0 |};
                {| response := running; elapsed := 1 |};
                {| response := running; elapsed := 2 |};
                {| response := running; elapsed := 3 |};
                {| response := succeeded; elapsed := 4 |} ];
     pages := two_pages |}.

(** The query fails at the second status check. *)
Definition fails_second (reason : option string) : remote :=
  {| submission := inr "q-1";
     polls := [ {| response := running; elapsed := 0 |};
                {| response := {| State := "FAILED"; StateChangeReason := reason |};
                   elapsed := 1 |};
                {| response := succeeded; elapsed := 2 |} ];
     pages := [] |}.

End CosmosClient.

Example upper_ex : PyStr.upper "select * From t" = "SELECT * FROM T".
Proof. reflexivity. Qed.
Example replace_ex : PyStr.replace "ab" "X" "abcabab-a" = "XcXX-a".
Proof. reflexivity. Qed.
Example replace_empty_ex : PyStr.replace "" "X" "abc" = "XaXbXcX".
Proof. reflexivity. Qed.
Example replace_first_ex : PyStr.replace_first "ab" "X" "cabab" = "cXab".
Proof. reflexivity. Qed.
Example str_of_int_ex :
  PyStr.str_of_int 0 = "0" /\ PyStr.str_of_int (-12) = "-12" /\ PyStr.str_of_int 300 = "300".
Proof. repeat split; reflexivity. Qed.
Example join_ex : PyStr.join ", " ["a"; "b"; "c"] = "a, b, c".
Proof. reflexivity. Qed.

(** ** Facts about the string operations *)

Section string_facts.

Import PyStr.

Lemma app_cons c s t : String c s +:+ t = String c (s +:+ t).
Proof. reflexivity. Qed.

Lemma app_nil_l t : "" +:+ t = t.
Proof. reflexivity. Qed.

Lemma app_nil_r s : s +:+ "" = s.
Proof. induction s as [|c s IH]; [reflexivity|]. by rewrite app_cons, IH. Qed.

Lemma app_assoc s t u : (s +:+ t) +:+ u = s +:+ t +:+ u.
Proof. induction s as [|c s IH]; [reflexivity|]. by rewrite !app_cons, IH. Qed.

Lemma length_app s t :
  String.length (s +:+ t) = (String.length s + String.length t)%nat.
Proof. induction s as [|c s IH]; [reflexivity|]. rewrite app_cons. simpl. by rewrite IH. Qed.

Lemma prefix_app old s : String.prefix old (old +:+ s) = true.
Proof.
  induction old as [|c old IH]; [by destruct s|].
  rewrite app_cons. simpl. destruct (ascii_dec c c); [exact IH|congruence].
Qed.

Lemma drop_app old s : drop (String.length old) (old +:+ s) = s.
Proof. induction old as [|c old IH]; [reflexivity|]. rewrite app_cons. exact IH. Qed.

Lemma prefix_inv old s :
  String.prefix old s = true -> s = old +:+ drop (String.length old) s.
Proof.
  revert s. induction old as [|c old IH]; intros s H; [reflexivity|].
  destruct s as [|d s]; [discriminate|]. simpl in H.
  destruct (ascii_dec c d) as [->|]; [|discriminate].
  rewrite app_cons. simpl. f_equal. by apply IH.
Qed.

Lemma contains_prefix sub s : String.prefix sub s = true -> contains sub s = true.
Proof. destruct s; simpl; by intros ->. Qed.

Lemma replace_first_prefix old new s :
  String.prefix old s = true ->
  replace_first old new s = new +:+ drop (String.length old) s.
Proof. destruct s; simpl; by intros ->. Qed.

Lemma replace_first_cons old new c s :
  replace_first old new (String c s)
  = if String.prefix old (String c s)
    then new +:+ drop (String.length old) (String c s)
    else String c (replace_first old new s).
Proof. reflexivity. Qed.

Lemma contains_cons sub c s :
  contains sub (String c s) = String.prefix sub (String c s) || contains sub s.
Proof. reflexivity. Qed.

Lemma contains_app sub pre post : contains sub (pre +:+ sub +:+ post) = true.
Proof.
  induction pre as [|c pre IH].
  - rewrite app_nil_l. apply contains_prefix, prefix_app.
  - rewrite app_cons, contains_cons, IH. apply orb_true_r.
Qed.

Lemma contains_inv sub s :
  contains sub s = true -> exists pre post, s = pre +:+ sub +:+ post.
Proof.
  induction s as [|c s IH]; intros H.
  - simpl in H. rewrite orb_false_r in H. exists "", "".
    destruct sub; [reflexivity|discriminate].
  - rewrite contains_cons in H. apply orb_true_iff in H as [H|H].
    + exists "", (drop (String.length sub) (String c s)). by apply prefix_inv.
    + destruct (IH H) as (pre & post & ->). by exists (String c pre), post.
Qed.

Lemma upper_app s t : upper (s +:+ t) = upper s +:+ upper t.
Proof. induction s as [|c s IH]; [reflexivity|]. rewrite !app_cons. simpl. by rewrite IH, app_cons. Qed.

Lemma replace_first_leftmost old new pre post :
  leftmost old pre post ->
  replace_first old new (pre +:+ old +:+ post) = pre +:+ new +:+ post.
Proof.
  induction pre as [|c pre IH]; intros Hl.
  - rewrite !app_nil_l.
    by rewrite replace_first_prefix, drop_app by apply prefix_app.
  - rewrite !app_cons, replace_first_cons.
    destruct (String.prefix old (String c (pre +:+ old +:+ post))) eqn:Hp.
    + apply prefix_inv in Hp.
      specialize (Hl "" _ Hp). simpl in Hl. lia.
    + f_equal. apply IH. intros pre' post' E.
      specialize (Hl (String c pre') post'). rewrite !app_cons in Hl.
      specialize (Hl (f_equal (String c) E)). simpl in Hl. lia.
Qed.

Lemma replace_first_absent old new s :
  contains old s = false -> replace_first old new s = s.
Proof.
  induction s as [|c s IH]; intros H.
  - simpl in *. rewrite orb_false_r in H. by rewrite H.
  - rewrite contains_cons in H. apply orb_false_iff in H as [Hp H].
    by rewrite replace_first_cons, Hp, IH.
Qed.

Lemma replace_from_cons c old new d s :
  replace_from 0 (String c old) new (String d s)
  = if String.prefix (String c old) (String d s)
    then new +:+ replace_from (String.length old) (String c old) new s
    else String d (replace_from 0 (String c old) new s).
Proof. reflexivity. Qed.

Lemma replace_from_absent c old new s :
  contains (String c old) s = false ->
  replace_from 0 (String c old) new s = s.
Proof.
  induction s as [|d s IH]; [reflexivity|]. intros H.
  rewrite contains_cons in H.
  apply orb_false_iff in H as [Hp H].
  by rewrite replace_from_cons, Hp, IH.
Qed.

Lemma replace_from_skip old new skipped s :
  replace_from (String.length skipped) old new (skipped +:+ s)
  = match s with
    | EmptyString => match old with EmptyString => new | _ => EmptyString end
    | _ => replace_from 0 old new s
    end.
Proof.
  induction skipped as [|c skipped IH].
  - rewrite app_nil_l. by destruct s.
  - rewrite app_cons. exact IH.
Qed.

(** A single occurrence of a non-empty [old]: it alone is replaced. *)
Lemma replace_single c old new pre post :
  leftmost (String c old) pre post ->
  contains (String c old) post = false ->
  replace (String c old) new (pre +:+ String c old +:+ post) = pre +:+ new +:+ post.
Proof.
  unfold replace. induction pre as [|d pre IH]; intros Hl Hpost.
  - rewrite !app_nil_l, app_cons, replace_from_cons.
    rewrite <- app_cons, prefix_app, replace_from_skip. f_equal.
    destruct post; [reflexivity|]. by apply replace_from_absent.
  - rewrite (app_cons d), replace_from_cons.
    destruct (String.prefix (String c old) (String d (pre +:+ String c old +:+ post))) eqn:Hp.
    + apply prefix_inv in Hp.
      specialize (Hl "" _ Hp). simpl in Hl. lia.
    + rewrite (app_cons d). f_equal. apply IH; [|done]. intros pre' post' E.
      specialize (Hl (String d pre') post'). rewrite !(app_cons d) in Hl.
      specialize (Hl (f_equal (String d) E)). simpl in Hl. lia.
Qed.

Lemma join_snoc sep (parts : list string) p :
  parts <> [] -> join sep (parts ++ [p]) = join sep parts +:+ sep +:+ p.
Proof.
  induction parts as [|q parts IH]; [done|]. intros _.
  destruct parts as [|r parts]; [reflexivity|].
  change (join sep ((q :: r :: parts) ++ [p]))
    with (q +:+ sep +:+ join sep ((r :: parts) ++ [p])).
  rewrite IH by done.
  change (join sep (q :: r :: parts)) with (q +:+ sep +:+ join sep (r :: parts)).
  by rewrite !app_assoc.
Qed.

End string_facts.

(** ** The query builder *)

Section builder_facts.

Import PyStr QueryBuilder.

Lemma truthy_opt_true (o : option string) :
  truthy_opt o = true <-> exists s, o = Some s /\ s <> "".
Proof.
  split.
  - destruct o as [[|c s]|]; try discriminate. intros _. by exists (String c s).
  - intros ([|c s] & -> & H); [congruence|reflexivity].
Qed.

Lemma truthy_opt_false (o : option string) :
  truthy_opt o = false <-> o = None \/ o = Some "".
Proof.
  split.
  - destruct o as [[|c s]|]; try discriminate; auto.
  - by intros [-> | ->].
Qed.

(** No mutator raises, whatever its arguments and the state. *)
Lemma call_returns (m : mutator) (self : t) :
  exists self', call m self = (inr tt, self').
Proof. destruct m; eexists; reflexivity. Qed.

Lemma chain_returns (ms : list mutator) (self : t) :
  exists self', chain ms self = (inr tt, self').
Proof.
  revert self. induction ms as [|m ms IH]; intros self.
  - by exists self.
  - destruct (call_returns m self) as [self1 H1].
    destruct (IH self1) as [self2 H2]. exists self2.
    simpl. unfold bind. by rewrite H1.
Qed.

(** [build] assigns nothing to the instance. *)
Lemma build_keeps_state (self : t) : snd (build self) = self.
Proof.
  unfold build, bind, get. destruct (_select_fields self); [reflexivity|].
  by destruct (truthy_opt (_from_table self)).
Qed.

Lemma build_rendering (self : t) (table : string) :
  _select_fields self <> [] ->
  _from_table self = Some table ->
  table <> "" ->
  build self =
    (inr ("SELECT " +:+ join ", " (_select_fields self) +:+ " FROM " +:+ table
          +:+ where_clause self +:+ order_clause self
          +:+ limit_clause self +:+ offset_clause self),
     self).
Proof.
  intros Hf Ht Hne.
  unfold build, bind, get, ret, where_clause, order_clause, limit_clause,
    offset_clause, append_if.
  destruct (_select_fields self) as [|f fs] eqn:Ef; [done|].
  rewrite Ht. destruct table as [|c table]; [done|]. cbn [truthy_opt truthy negb default].
  f_equal. f_equal.
  destruct (_where_conditions self) as [|w ws];
    destruct (_order_by self) as [[|o ob]|];
    destruct (_limit self); destruct (_offset self);
    cbn [truthy_opt truthy default app join];
    rewrite ?app_nil_r, ?app_assoc; reflexivity.
Qed.

End builder_facts.

Section builder_claims.

Import PyStr QueryBuilder.

(** C7, as amended.  For every builder state with at least one selected
    field and a non-empty table name, [build] returns
    [SELECT <fields> FROM <table>] followed by the WHERE, ORDER BY, LIMIT
    and OFFSET clauses in that order, each preceded by one space and each
    left out when the builder holds no data for it.  The two renderings
    the specification spells out are obtained exactly. *)
Theorem build_renders_clauses_in_order (self : t) (table : string) :
  _select_fields self <> [] ->
  _from_table self = Some table ->
  table <> "" ->
  build self =
    (inr ("SELECT " +:+ join ", " (_select_fields self) +:+ " FROM " +:+ table
          +:+ where_clause self +:+ order_clause self
          +:+ limit_clause self +:+ offset_clause self),
     self)
  /\ fst (build_after [Select ["a"]; FromTable "t"; Where "x>1"; Where "y<2";
                       OrderBy "z" ASC; Limit 5; Offset 2])
     = inr "SELECT a FROM t WHERE x>1 AND y<2 ORDER BY z ASC LIMIT 5 OFFSET 2"
  /\ fst (build_after [Select ["a"; "b"]; FromTable "t"])
     = inr "SELECT a, b FROM t".
Proof.
  intros Hf Ht Hne. split; [by apply build_rendering|]. split; reflexivity.
Qed.

Lemma build_renders_clauses_in_order_witness :
  build {| _select_fields := ["system_id"; "stellar_mass_msun"];
           _from_table := Some "star";
           _where_conditions := ["spectral_type = 'O'"];
           _order_by := None; _limit := Some 100%Z; _offset := None |}
  = (inr "SELECT system_id, stellar_mass_msun FROM star WHERE spectral_type = 'O' LIMIT 100",
     {| _select_fields := ["system_id"; "stellar_mass_msun"];
        _from_table := Some "star";
        _where_conditions := ["spectral_type = 'O'"];
        _order_by := None; _limit := Some 100%Z; _offset := None |}).
Proof.
  refine (proj1 (build_renders_clauses_in_order
    {| _select_fields := ["system_id"; "stellar_mass_msun"];
       _from_table := Some "star";
       _where_conditions := ["spectral_type = 'O'"];
       _order_by := None; _limit := Some 100%Z; _offset := None |}
    "star" _ _ _)).
  - discriminate.
  - reflexivity.
  - discriminate.
Defined.

(** C7, as stated, fails when the table was set to the empty string:
    a field is selected and a table is set, yet [build] raises. *)
Lemma build_rejects_empty_table_name :
  _select_fields empty_table_name = ["a"]
  /\ _from_table empty_table_name = Some ""
  /\ build empty_table_name
     = (inl (ValueError "FROM table required"), empty_table_name)
  /\ ~ exists sql, fst (build empty_table_name) = inr sql.
Proof.
  repeat split. intros [sql H]. discriminate H.
Qed.

(** C8, as amended.  [build] raises its validation error exactly when no
    field was selected, or the table is unset or is the empty string; the
    error comes from [build]: no mutator and no chain of mutators raises,
    whatever the arguments, and [build] raises nothing else. *)
Theorem build_fails_iff_fields_or_table_missing (self : t) :
  ((exists e, fst (build self) = inl e) <->
   (_select_fields self = [] \/ _from_table self = None \/ _from_table self = Some ""))
  /\ (forall e, fst (build self) = inl e -> exists msg, e = ValueError msg)
  /\ (forall m : mutator, exists self', call m self = (inr tt, self'))
  /\ (forall ms : list mutator, exists self', chain ms self = (inr tt, self')).
Proof.
  repeat split.
  - intros [e He]. unfold build, bind, get in He.
    destruct (_select_fields self); [by left|]. right.
    apply truthy_opt_false.
    destruct (truthy_opt (_from_table self)); [discriminate He|reflexivity].
  - intros H. unfold build, bind, get.
    destruct (_select_fields self) as [|f fs]; [by eexists|].
    destruct H as [H|H]; [discriminate H|].
    apply truthy_opt_false in H. rewrite H. by eexists.
  - intros e He. unfold build, bind, get in He.
    destruct (_select_fields self); [by eexists; inversion He|].
    destruct (truthy_opt (_from_table self)); [discriminate He|].
    by eexists; inversion He.
  - intros m. apply call_returns.
  - intros ms. apply chain_returns.
Qed.

(** C8, as stated, fails: with a field selected and the table set to the
    empty string, [build] raises although neither is missing. *)
Lemma build_failure_not_only_when_unset :
  ~ ((exists e, fst (build empty_table_name) = inl e) <->
     (_select_fields empty_table_name = [] \/ _from_table empty_table_name = None)).
Proof.
  intros [H _]. destruct H as [H|H]; [by eexists|discriminate H..].
Qed.

(** C9.  When [build] succeeds it leaves the builder as it was, a second
    [build] returns the same string, and [__str__] returns what [build]
    returns. *)
Theorem build_idempotent_and_pure (self self' : t) (sql : string) :
  build self = (inr sql, self') ->
  self' = self
  /\ build self' = (inr sql, self')
  /\ __str__ self = (inr sql, self).
Proof.
  intros H. assert (self' = self) as ->.
  { by rewrite <- (build_keeps_state self), H. }
  by repeat split.
Qed.

Lemma build_idempotent_and_pure_witness :
  snd (build_after [Select ["a"; "b"]; FromTable "t"])
    = snd (chain [Select ["a"; "b"]; FromTable "t"] init)
  /\ build (snd (build_after [Select ["a"; "b"]; FromTable "t"]))
     = (inr "SELECT a, b FROM t", snd (build_after [Select ["a"; "b"]; FromTable "t"]))
  /\ __str__ (snd (chain [Select ["a"; "b"]; FromTable "t"] init))
     = (inr "SELECT a, b FROM t", snd (chain [Select ["a"; "b"]; FromTable "t"] init)).
Proof.
  apply (build_idempotent_and_pure
           (snd (chain [Select ["a"; "b"]; FromTable "t"] init))
           (snd (build_after [Select ["a"; "b"]; FromTable "t"]))
           "SELECT a, b FROM t").
  reflexivity.
Defined.

End builder_claims.


(** ** The query path of the client *)

Section client_facts.

Import PyStr CosmosClient.

Lemma timed_out_true (timeout : Z) (e : Q) :
  timed_out timeout e = true <-> (inject_Z timeout < e)%Q.
Proof.
  unfold timed_out. rewrite negb_true_iff. split.
  - intros H. apply Qnot_le_lt. intros Hle.
    apply Qle_bool_iff in Hle. congruence.
  - intros H. destruct (Qle_bool e (inject_Z timeout)) eqn:E; [|reflexivity].
    apply Qle_bool_iff in E. by apply Qlt_not_le in H.
Qed.

Lemma timed_out_false (timeout : Z) (e : Q) :
  timed_out timeout e = false <-> (e <= inject_Z timeout)%Q.
Proof.
  unfold timed_out. rewrite negb_false_iff. apply Qle_bool_iff.
Qed.

Lemma is_terminal_false (state : string) :
  is_terminal state = false ->
  String.eqb state "SUCCEEDED" = false
  /\ String.eqb state "FAILED" = false
  /\ String.eqb state "CANCELLED" = false.
Proof.
  unfold is_terminal. intros H.
  apply orb_false_iff in H as [H H3]. apply orb_false_iff in H as [H1 H2]. auto.
Qed.

(** An iteration that sees a non-terminal state within the timeout sleeps
    and leaves the outcome to the iterations after it. *)
Lemma wait_step (timeout : Z) (query_id : string) (p : poll) (rest : list poll) :
  is_terminal (State (response p)) = false ->
  timed_out timeout (elapsed p) = false ->
  wait timeout query_id (p :: rest)
  = (fst (wait timeout query_id rest),
     GetQueryExecution query_id :: Sleep 1 :: snd (wait timeout query_id rest)).
Proof.
  intros Hs Ht. apply is_terminal_false in Hs as (H1 & H2 & H3).
  cbn [wait]. rewrite H1, H2, H3, Ht. cbn [orb].
  by destruct (wait timeout query_id rest).
Qed.

Lemma wait_keeps_polling (timeout : Z) (query_id : string) (pre rest : list poll) :
  Forall (fun q => is_terminal (State (response q)) = false
                   /\ timed_out timeout (elapsed q) = false) pre ->
  wait timeout query_id (pre ++ rest)%list
  = (fst (wait timeout query_id rest),
     (polling_log query_id (length pre) ++ snd (wait timeout query_id rest))%list).
Proof.
  induction 1 as [|p pre [Hs Ht] _ IH].
  - change ([] ++ rest)%list with rest. by destruct (wait timeout query_id rest).
  - change ((p :: pre) ++ rest)%list with (p :: (pre ++ rest))%list.
    rewrite wait_step, IH by done. reflexivity.
Qed.

Lemma status_checks_polling_log (query_id : string) (n : nat) (log : list call) :
  status_checks (polling_log query_id n ++ log)%list = (n + status_checks log)%nat.
Proof.
  unfold status_checks. induction n as [|n IH]; [reflexivity|].
  cbn [polling_log]. simpl. by rewrite IH.
Qed.

Lemma fetch_page_spec (results : list (list (option string)))
    (p : list (list (gmap string string))) :
  fetch_page results p = (results ++ map decode_row (tail p))%list.
Proof.
  unfold fetch_page. generalize (tail p) as rows. intros rows. revert results.
  induction rows as [|r rows IH]; intros results; simpl.
  - by rewrite List.app_nil_r.
  - rewrite IH. by rewrite <- List.app_assoc.
Qed.

Lemma fetch_fold (ps : list (list (list (gmap string string))))
    (results : list (list (option string))) :
  fold_left fetch_page ps results
  = (results ++ List.concat (map (fun p => map decode_row (tail p)) ps))%list.
Proof.
  revert results. induction ps as [|p ps IH]; intros results; simpl.
  - by rewrite List.app_nil_r.
  - rewrite IH, fetch_page_spec. by rewrite <- List.app_assoc.
Qed.

Lemma fetch_concat (ps : list (list (list (gmap string string)))) :
  fetch ps = List.concat (map (fun p => map decode_row (tail p)) ps).
Proof. unfold fetch. by rewrite fetch_fold. Qed.

Lemma fetch_app (ps qs : list (list (list (gmap string string)))) :
  fetch (ps ++ qs)%list = (fetch ps ++ fetch qs)%list.
Proof. by rewrite !fetch_concat, map_app, List.concat_app. Qed.

Lemma within_timeout_polling (timeout : Z) (pre : list poll) :
  Forall (fun q => is_terminal (State (response q)) = false
                   /\ (elapsed q <= inject_Z timeout)%Q) pre ->
  Forall (fun q => is_terminal (State (response q)) = false
                   /\ timed_out timeout (elapsed q) = false) pre.
Proof.
  intros H. eapply Forall_impl; [exact H|]. intros q [? ?]. split; [done|].
  by apply timed_out_false.
Qed.

Lemma status_checks_cons (c : call) (log : list call) :
  status_checks (c :: log)
  = ((if is_status_check c then 1 else 0) + status_checks log)%nat.
Proof. unfold status_checks. simpl. by destruct (is_status_check c). Qed.

End client_facts.

(** *** The textual rewriting of [query_galaxy] *)

Section rewrite_facts.

Import PyStr CosmosClient.

(** An upper-case [WHERE]: the predicate goes right after its leftmost
    occurrence, and the rest of the query is kept. *)
Lemma inject_galaxy_where (galaxy_id pre post : string) :
  leftmost "WHERE" pre post ->
  inject_galaxy galaxy_id (pre +:+ "WHERE" +:+ post)
  = pre +:+ ("WHERE " +:+ predicate galaxy_id +:+ " AND") +:+ post.
Proof.
  intros Hl. unfold inject_galaxy.
  rewrite !upper_app. change (upper "WHERE") with "WHERE".
  rewrite contains_app. by apply replace_first_leftmost.
Qed.

(** A [WHERE] that is found only after upper-casing: nothing is inserted. *)
Lemma inject_galaxy_other_case (galaxy_id query : string) :
  contains "WHERE" (upper query) = true ->
  contains "WHERE" query = false ->
  inject_galaxy galaxy_id query = query.
Proof.
  intros Hu Hq. unfold inject_galaxy. rewrite Hu. by apply replace_first_absent.
Qed.



(** A time of zero, or a negative one, adds nothing. *)
Lemma inject_time_not_positive (galaxy_id query : string) (universe_time : Z) :
  (universe_time <= 0)%Z ->
  inject_time galaxy_id universe_time query = query.
Proof.
  intros H. unfold inject_time.
  destruct (0 <? universe_time)%Z eqn:E; [|reflexivity].
  apply Z.ltb_lt in E. lia.
Qed.

(** The predicate text occurs once: one time clause, right after it. *)
Lemma inject_time_single (galaxy_id pre post : string) (universe_time : Z) :
  (0 < universe_time)%Z ->
  leftmost (predicate galaxy_id) pre post ->
  contains (predicate galaxy_id) post = false ->
  inject_time galaxy_id universe_time (pre +:+ predicate galaxy_id +:+ post)
  = pre +:+ (predicate galaxy_id +:+ time_clause universe_time) +:+ post.
Proof.
  intros Ht Hl Hp. unfold inject_time.
  apply Z.ltb_lt in Ht. rewrite Ht.
  change (predicate galaxy_id)
    with (String "g" ("alaxy_id = '" +:+ galaxy_id +:+ "'")) in *.
  by apply replace_single.
Qed.

End rewrite_facts.

Section rewrite_claims.

Import PyStr CosmosClient.

(** C1.  The claim asks for the partition predicate after a [WHERE] written
    in any case.  The code finds a lower-case [where] (the test upper-cases
    the query) but replaces only the upper-case text: with
    [select * from star where mass>10] and partition [g1] the query goes out
    unchanged, without the predicate.  The same query with [WHERE] in upper
    case gets the predicate right after the keyword. *)
Theorem lowercase_where_found_but_not_rewritten :
  contains "WHERE" (upper "select * from star where mass>10") = true
  /\ rewrite "g1" "select * from star where mass>10" 0
     = "select * from star where mass>10"
  /\ contains (predicate "g1") (rewrite "g1" "select * from star where mass>10" 0)
     = false
  /\ rewrite "g1" "SELECT * FROM star WHERE mass>10" 0
     = "SELECT * FROM star WHERE galaxy_id = 'g1' AND mass>10".
Proof. repeat split; reflexivity. Qed.

(** C2.  The claim asks for exactly one time clause, next to the inserted
    predicate, also when the predicate text occurs elsewhere in the caller's
    SQL.  The code extends every occurrence of the text: with
    [SELECT * FROM star WHERE galaxy_id = 'g1' AND mass>10], partition [g1]
    and time 5, two time clauses come out.  Without a second occurrence
    there is one clause, and with time 0 there is none. *)
Theorem time_clause_added_at_every_occurrence :
  rewrite "g1" "SELECT * FROM star WHERE galaxy_id = 'g1' AND mass>10" 5
  = "SELECT * FROM star WHERE galaxy_id = 'g1' AND universe_time = 5 AND galaxy_id = 'g1' AND universe_time = 5 AND mass>10"
  /\ rewrite "g1" "SELECT * FROM star WHERE mass>10" 5
     = "SELECT * FROM star WHERE galaxy_id = 'g1' AND universe_time = 5 AND mass>10"
  /\ rewrite "g1" "SELECT * FROM star WHERE mass>10" 0
     = "SELECT * FROM star WHERE galaxy_id = 'g1' AND mass>10".
Proof. repeat split; reflexivity. Qed.

(** C3.  The claim asks, for a query without [WHERE], for a new [WHERE]
    before the first of [LIMIT], [ORDER BY], [GROUP BY] that is found, and
    for an appended [WHERE] when none is.  The code finds a lower-case
    [limit] (the test upper-cases the query), replaces only the upper-case
    text and leaves the loop: with [select * from star limit 5] and partition
    [g1] the query goes out unchanged, without the predicate.  With the
    keyword in upper case, and with no keyword, the code does what the claim
    says. *)
Theorem lowercase_keyword_found_but_not_rewritten :
  contains "WHERE" (upper "select * from star limit 5") = false
  /\ contains "LIMIT" (upper "select * from star limit 5") = true
  /\ rewrite "g1" "select * from star limit 5" 0 = "select * from star limit 5"
  /\ rewrite "g1" "SELECT * FROM star LIMIT 5" 0
     = "SELECT * FROM star WHERE galaxy_id = 'g1' LIMIT 5"
  /\ rewrite "g1" "SELECT * FROM star GROUP BY kind ORDER BY kind" 0
     = "SELECT * FROM star GROUP BY kind WHERE galaxy_id = 'g1' ORDER BY kind"
  /\ rewrite "g1" "SELECT * FROM star" 0
     = "SELECT * FROM star WHERE galaxy_id = 'g1'".
Proof. repeat split; reflexivity. Qed.

End rewrite_claims.

Section executor_claims.

Import PyStr CosmosClient.

(** C4, as amended.  When the status checks up to one of them all answer a
    non-terminal state, the clock readings after the earlier ones are within
    the timeout and the reading after that one is beyond it, the call raises
    the timeout [QueryError] and that status check is its last one, whatever
    the service would have answered next. *)
Theorem timeout_ends_polling (self : t) (env : remote) (query query_id : string)
    (pre : list poll) (p : poll) (rest : list poll) :
  submission env = inr query_id ->
  polls env = (pre ++ p :: rest)%list ->
  Forall (fun q => is_terminal (State (response q)) = false
                   /\ (elapsed q <= inject_Z (timeout self))%Q) pre ->
  is_terminal (State (response p)) = false ->
  (inject_Z (timeout self) < elapsed p)%Q ->
  _execute_query self env query
  = (Raise (QueryError ("Query timeout after " +:+ str_of_int (timeout self) +:+ "s")),
     (StartQueryExecution query (database self)
        ("s3://" +:+ results_bucket self +:+ "/queries/")
      :: polling_log query_id (length pre) ++ [GetQueryExecution query_id])%list)
  /\ status_checks (snd (_execute_query self env query)) = S (length pre).
Proof.
  intros Hsub Hpolls Hpre Hp Ht.
  apply within_timeout_polling in Hpre.
  assert (Hlast : wait (timeout self) query_id (p :: rest)
    = (Raise (QueryError ("Query timeout after " +:+ str_of_int (timeout self) +:+ "s")),
       [GetQueryExecution query_id])).
  { apply is_terminal_false in Hp as (H1 & H2 & H3).
    apply timed_out_true in Ht. cbn [wait]. by rewrite H1, H2, H3, Ht. }
  assert (E : _execute_query self env query
    = (Raise (QueryError ("Query timeout after " +:+ str_of_int (timeout self) +:+ "s")),
       (StartQueryExecution query (database self)
          ("s3://" +:+ results_bucket self +:+ "/queries/")
        :: polling_log query_id (length pre) ++ [GetQueryExecution query_id])%list)).
  { unfold _execute_query.
    by rewrite Hsub, Hpolls, (wait_keeps_polling _ _ _ _ Hpre), Hlast. }
  split; [exact E|]. rewrite E. cbn [snd].
  rewrite status_checks_cons, status_checks_polling_log. cbn. lia.
Qed.

Lemma timeout_ends_polling_witness :
  _execute_query two_second_client never_done "SELECT 1"
  = (Raise (QueryError "Query timeout after 2s"),
     [StartQueryExecution "SELECT 1" "cosmological_production"
        "s3://cosmos-query-results-us-east-1/queries/";
      GetQueryExecution "q-1"; Sleep 1; GetQueryExecution "q-1"; Sleep 1;
      GetQueryExecution "q-1"; Sleep 1; GetQueryExecution "q-1"])
  /\ status_checks (snd (_execute_query two_second_client never_done "SELECT 1")) = 4%nat.
Proof.
  apply (timeout_ends_polling two_second_client never_done "SELECT 1" "q-1"
           [ {| response := running; elapsed := 0 |};
             {| response := running; elapsed := 1 |};
             {| response := running; elapsed := 2 |} ]
           {| response := running; elapsed := 3 |}
           [ {| response := succeeded; elapsed := 4 |} ]).
  - reflexivity.
  - reflexivity.
  - repeat constructor; apply Qle_bool_iff; reflexivity.
  - reflexivity.
  - reflexivity.
Defined.

(** C4, as stated, fails.  The query is still running at every status check
    made within the timeout of two seconds; the clock passes the boundary
    during the sleep, the next status check is made at three seconds, it
    answers [SUCCEEDED], and the call returns the rows: no timeout error,
    and a status check after the boundary. *)
Lemma late_success_is_not_a_timeout :
  Forall (fun q => (elapsed q <= inject_Z (timeout two_second_client))%Q ->
                   is_terminal (State (response q)) = false) (polls late_success)
  /\ Exists (fun q => (inject_Z (timeout two_second_client) < elapsed q)%Q)
       (polls late_success)
  /\ fst (_execute_query two_second_client late_success "SELECT 1")
     = Return (fetch two_pages)
  /\ status_checks (snd (_execute_query two_second_client late_success "SELECT 1"))
     = 4%nat
  /\ (exists q, polls late_success !! 3%nat = Some q
                /\ (inject_Z (timeout two_second_client) < elapsed q)%Q)
  /\ ~ exists msg, fst (_execute_query two_second_client late_success "SELECT 1")
                   = Raise (QueryError msg).
Proof.
  split.
  { repeat constructor. intros H. apply Qle_bool_iff in H. discriminate H. }
  split.
  { do 3 apply Exists_cons_tl. apply Exists_cons_hd. reflexivity. }
  split; [reflexivity|]. split; [reflexivity|]. split.
  { eexists. split; reflexivity. }
  intros [msg H]. discriminate H.
Qed.

(** C5.  When the status checks before one of them all answer a
    non-terminal state within the timeout and that one answers [SUCCEEDED],
    the call goes on to fetch the result pages and returns their rows; when
    it answers [FAILED] or [CANCELLED], the call raises a [QueryError] with
    the reason the service gave, or with [Unknown error] when it gave none.
    Either way the query is submitted once and that status check is the last
    one: nothing is retried. *)
Theorem terminal_state_ends_polling (self : t) (env : remote)
    (query query_id : string) (pre : list poll) (p : poll) (rest : list poll) :
  submission env = inr query_id ->
  polls env = (pre ++ p :: rest)%list ->
  Forall (fun q => is_terminal (State (response q)) = false
                   /\ (elapsed q <= inject_Z (timeout self))%Q) pre ->
  (State (response p) = "SUCCEEDED" ->
   _execute_query self env query
   = (Return (fetch (pages env)),
      (StartQueryExecution query (database self)
         ("s3://" +:+ results_bucket self +:+ "/queries/")
       :: polling_log query_id (length pre)
          ++ [GetQueryExecution query_id; Paginate "get_query_results" query_id])%list))
  /\ (State (response p) = "FAILED" \/ State (response p) = "CANCELLED" ->
      _execute_query self env query
      = (Raise (QueryError
                  match StateChangeReason (response p) with
                  | Some reason => "Query failed: " +:+ reason
                  | None => "Query failed: Unknown error"
                  end),
         (StartQueryExecution query (database self)
            ("s3://" +:+ results_bucket self +:+ "/queries/")
          :: polling_log query_id (length pre) ++ [GetQueryExecution query_id])%list)).
Proof.
  intros Hsub Hpolls Hpre. apply within_timeout_polling in Hpre.
  unfold _execute_query.
  rewrite Hsub, Hpolls, (wait_keeps_polling _ _ _ _ Hpre). split.
  - intros Hs. cbn [wait]. rewrite Hs. cbn [String.eqb fst snd].
    by rewrite <- List.app_assoc.
  - intros Hs. cbn [wait].
    assert (Hf : String.eqb (State (response p)) "SUCCEEDED" = false
                 /\ String.eqb (State (response p)) "FAILED"
                    || String.eqb (State (response p)) "CANCELLED" = true).
    { by destruct Hs as [-> | ->]. }
    destruct Hf as [-> ->]. cbn [fst snd translate].
    by destruct (StateChangeReason (response p)).
Qed.

Lemma terminal_state_ends_polling_witness :
  _execute_query two_second_client (fails_second None) "SELECT 1"
  = (Raise (QueryError "Query failed: Unknown error"),
     [StartQueryExecution "SELECT 1" "cosmological_production"
        "s3://cosmos-query-results-us-east-1/queries/";
      GetQueryExecution "q-1"; Sleep 1; GetQueryExecution "q-1"]).
Proof.
  refine (proj2 (terminal_state_ends_polling two_second_client (fails_second None)
                   "SELECT 1" "q-1"
                   [ {| response := running; elapsed := 0 |} ]
                   {| response := {| State := "FAILED"; StateChangeReason := None |};
                      elapsed := 1 |}
                   [ {| response := succeeded; elapsed := 2 |} ] _ _ _) _).
  - reflexivity.
  - reflexivity.
  - repeat constructor; apply Qle_bool_iff; reflexivity.
  - left. reflexivity.
Defined.

Lemma length_fetch (ps : list (list (list (gmap string string)))) :
  Forall (fun p => p <> []) ps ->
  (length (fetch ps) + length ps)%nat = total_rows ps.
Proof.
  rewrite fetch_concat. induction 1 as [|p ps Hp _ IH]; [reflexivity|].
  destruct p as [|header rows]; [done|].
  cbn [map List.concat tail total_rows foldr length].
  rewrite List.length_app, List.length_map.
  change (foldr (fun p n => (length p + n)%nat) 0%nat ps) with (total_rows ps).
  lia.
Qed.

(** C6.  The rows returned are, page after page in the order of the pages,
    the rows of each page but its first, each decoded cell by cell to the
    cell's [VarCharValue] or to nothing when the cell has none.  When every
    page has its header row, the number of rows returned is the number of
    all rows of all pages less one for each page. *)
Theorem fetch_skips_page_headers (ps : list (list (list (gmap string string)))) :
  fetch ps = List.concat (map (fun p => map decode_row (tail p)) ps)
  /\ (forall pre header rows post,
        ps = (pre ++ (header :: rows) :: post)%list ->
        fetch ps = (fetch pre ++ map decode_row rows ++ fetch post)%list)
  /\ (forall (r : list (gmap string string)) (i : nat),
        decode_row r !! i
        = (fun col : gmap string string => col !! "VarCharValue") <$> r !! i)
  /\ (Forall (fun p => p <> []) ps ->
      length (fetch ps) = (total_rows ps - length ps)%nat
      /\ (length ps <= total_rows ps)%nat).
Proof.
  split; [apply fetch_concat|]. split.
  { intros pre header rows post ->.
    change ((header :: rows) :: post) with ([header :: rows] ++ post)%list.
    rewrite !fetch_app. f_equal. f_equal.
    rewrite fetch_concat. cbn. by rewrite List.app_nil_r. }
  split.
  { intros r i. unfold decode_row. apply list_lookup_fmap. }
  intros H. pose proof (length_fetch ps H). lia.
Qed.

Lemma fetch_skips_page_headers_witness :
  length (fetch two_pages) = 3%nat /\ (2 <= 5)%nat.
Proof.
  refine (proj2 (proj2 (proj2 (fetch_skips_page_headers two_pages))) _).
  repeat constructor; discriminate.
Defined.

End executor_claims.

Section construction_claims.

Import PyStr CosmosClient.

(** With a credential, from the argument or else from the environment, the
    client is built and the two service clients are created. *)
Lemma init_with_credential (environ : gmap string string)
    (api_key : option string) (region : string) (timeout : Z) (database : string) :
  truthy_opt (or_else api_key (environ !! "COSMOS_API_KEY")) = true ->
  exists self,
    __init__ environ api_key region timeout database
    = (inr self, [CreateClient "athena" region; CreateClient "s3" region]).
Proof. intros H. unfold __init__. rewrite H. by eexists. Qed.

(** C10.  When the [api_key] argument is [None] or the empty string and
    [COSMOS_API_KEY] is unset or empty in the environment, [__init__] raises
    [AuthenticationError] and no service client has been created. *)
Theorem init_without_credential_raises (environ : gmap string string)
    (api_key : option string) (region : string) (timeout : Z) (database : string) :
  api_key = None \/ api_key = Some "" ->
  environ !! "COSMOS_API_KEY" = None \/ environ !! "COSMOS_API_KEY" = Some "" ->
  exists msg,
    __init__ environ api_key region timeout database
    = (inl (AuthenticationError msg), []).
Proof.
  intros Hk He. unfold __init__.
  assert (truthy_opt (or_else api_key (environ !! "COSMOS_API_KEY")) = false) as ->.
  { unfold or_else. destruct Hk as [-> | ->]; by destruct He as [-> | ->]. }
  by eexists.
Qed.

Lemma init_without_credential_raises_witness :
  exists msg,
    __init__ {[ "COSMOS_API_KEY" := "" ]} None "us-east-1" 300 "cosmological_production"
    = (inl (AuthenticationError msg), []).
Proof.
  apply init_without_credential_raises.
  - left. reflexivity.
  - right. reflexivity.
Defined.

End construction_claims.

(** ** Further properties of the query builder *)

Section builder_calls.

Import PyStr QueryBuilder.

Lemma chain_run (ms : list mutator) (self : t) :
  chain ms self
  = (inr tt,
     {| _select_fields := (_select_fields self ++ selected ms)%list;
        _from_table := last_table ms (_from_table self);
        _where_conditions := (_where_conditions self ++ conditions ms)%list;
        _order_by := last_order ms (_order_by self);
        _limit := last_limit ms (_limit self);
        _offset := last_offset ms (_offset self) |}).
Proof.
  revert self. induction ms as [|m ms IH]; intros self.
  - destruct self. cbn. by rewrite !List.app_nil_r.
  - cbn [chain]. unfold bind at 1.
    destruct m; cbn [call]; unfold select, from_table, where_, order_by, limit,
      offset, bind, get, put; rewrite IH; cbn;
      rewrite <- ?List.app_assoc; reflexivity.
Qed.

(** The state after a chain of mutator calls is read off the calls: [select]
    and [where] accumulate their arguments in call order, after what the
    builder already held; of the calls of [from_table], [order_by], [limit]
    and [offset] only the last one counts; and no call raises. *)
Theorem chain_state_from_calls (ms : list mutator) (self : t) :
  chain ms self
  = (inr tt,
     {| _select_fields := (_select_fields self ++ selected ms)%list;
        _from_table := last_table ms (_from_table self);
        _where_conditions := (_where_conditions self ++ conditions ms)%list;
        _order_by := last_order ms (_order_by self);
        _limit := last_limit ms (_limit self);
        _offset := last_offset ms (_offset self) |}).
Proof. apply chain_run. Qed.

(** What [build] returns after a chain of calls on a fresh builder depends on
    the calls only through the selected fields, the last table, the
    conditions and the last ordering, limit and offset: with a field
    selected and a last table name that is not empty, it is the rendering of
    these, in the fixed clause order, whatever the order of the calls. *)
Theorem build_after_calls (ms : list mutator) (table : string) :
  selected ms <> [] ->
  last_table ms None = Some table ->
  table <> "" ->
  fst (build_after ms)
  = inr ("SELECT " +:+ join ", " (selected ms) +:+ " FROM " +:+ table
         +:+ match conditions ms with
             | [] => ""
             | cs => " WHERE " +:+ join " AND " cs
             end
         +:+ match last_order ms None with
             | None | Some EmptyString => ""
             | Some ob => " ORDER BY " +:+ ob
             end
         +:+ match last_limit ms None with
             | None => ""
             | Some n => " LIMIT " +:+ str_of_int n
             end
         +:+ match last_offset ms None with
             | None => ""
             | Some n => " OFFSET " +:+ str_of_int n
             end).
Proof.
  intros Hs Ht Hne. unfold build_after, bind. rewrite chain_run.
  cbn [_select_fields _from_table _where_conditions _order_by _limit _offset init
       List.app].
  erewrite build_rendering; [reflexivity|done..].
Qed.

Lemma build_after_calls_witness :
  fst (build_after [Limit 5; Where "x>1"; FromTable "u"; Select ["a"];
                    FromTable "t"; Select ["b"]])
  = inr "SELECT a, b FROM t WHERE x>1 LIMIT 5".
Proof.
  apply (build_after_calls [Limit 5; Where "x>1"; FromTable "u"; Select ["a"];
                            FromTable "t"; Select ["b"]] "t").
  - discriminate.
  - reflexivity.
  - discriminate.
Defined.

(** Two calls that assign to different attributes can be swapped: the
    builder ends in the same state, whatever is called after them. *)
Theorem calls_on_different_attributes_commute (m1 m2 : mutator)
    (ms : list mutator) (self : t) :
  assigns m1 <> assigns m2 ->
  chain (m1 :: m2 :: ms) self = chain (m2 :: m1 :: ms) self.
Proof.
  intros H. destruct m1, m2; try (exfalso; apply H; reflexivity); reflexivity.
Qed.

Lemma calls_on_different_attributes_commute_witness :
  chain [Limit 5; Offset 2; Select ["a"]] init
  = chain [Offset 2; Limit 5; Select ["a"]] init.
Proof.
  apply (calls_on_different_attributes_commute (Limit 5) (Offset 2) [Select ["a"]] init).
  discriminate.
Defined.

End builder_calls.

(** ** Further properties of the rewriting *)

Section occurrences.

Import PyStr.

Lemma find_cons sub c s :
  find sub (String c s)
  = if String.prefix sub (String c s) then Some O else option_map S (find sub s).
Proof. reflexivity. Qed.

Lemma find_prefix sub s : String.prefix sub s = true -> find sub s = Some O.
Proof. destruct s; simpl; by intros ->. Qed.

Lemma find_le sub pre post :
  exists n, find sub (pre +:+ sub +:+ post) = Some n /\ (n <= String.length pre)%nat.
Proof.
  induction pre as [|c pre (n & Hn & Hle)].
  - exists O. split; [|done]. rewrite app_nil_l.
    apply find_prefix, prefix_app.
  - rewrite app_cons, find_cons.
    destruct (String.prefix sub (String c (pre +:+ sub +:+ post))).
    + exists O. split; [done|lia].
    + exists (S n). rewrite Hn. split; [done|simpl; lia].
Qed.

(** The offset [find] returns is that of the leftmost occurrence. *)
Lemma leftmost_find old pre post :
  find old (pre +:+ old +:+ post) = Some (String.length pre) ->
  leftmost old pre post.
Proof.
  intros H pre' post' E. rewrite E in H.
  destruct (find_le old pre' post') as (n & Hn & Hle).
  rewrite Hn in H. injection H as ->. done.
Qed.

Lemma replace_leftmost c old new pre post :
  leftmost (String c old) pre post ->
  replace (String c old) new (pre +:+ String c old +:+ post)
  = pre +:+ new +:+ replace (String c old) new post.
Proof.
  unfold replace. induction pre as [|d pre IH]; intros Hl.
  - rewrite !app_nil_l, app_cons, replace_from_cons.
    rewrite <- app_cons, prefix_app, replace_from_skip. by destruct post.
  - rewrite (app_cons d), replace_from_cons.
    destruct (String.prefix (String c old) (String d (pre +:+ String c old +:+ post))) eqn:Hp.
    + apply prefix_inv in Hp.
      specialize (Hl "" _ Hp). simpl in Hl. lia.
    + rewrite (app_cons d). f_equal. apply IH. intros pre' post' E.
      specialize (Hl (String d pre') post'). rewrite !(app_cons d) in Hl.
      specialize (Hl (f_equal (String d) E)). simpl in Hl. lia.
Qed.

End occurrences.

Section rewrite_properties.

Import PyStr CosmosClient.

Lemma inject_galaxy_where_witness :
  inject_galaxy "g1" ("SELECT * FROM star " +:+ "WHERE" +:+ " kind = 'WHERE'")
  = "SELECT * FROM star " +:+ ("WHERE " +:+ predicate "g1" +:+ " AND")
    +:+ " kind = 'WHERE'".
Proof.
  apply (inject_galaxy_where "g1" "SELECT * FROM star " " kind = 'WHERE'").
  apply leftmost_find. reflexivity.
Defined.

(** A query whose only [WHERE] is written in another case, and which does
    not hold the predicate text already, is handed on exactly as the caller
    wrote it: no partition predicate and, whatever the time, no time
    clause. *)
Theorem where_in_other_case_leaves_query_unchanged
    (galaxy_id query : string) (universe_time : Z) :
  contains "WHERE" (upper query) = true ->
  contains "WHERE" query = false ->
  contains (predicate galaxy_id) query = false ->
  rewrite galaxy_id query universe_time = query.
Proof.
  intros Hu Hq Hp. unfold rewrite, inject_galaxy, inject_time.
  rewrite Hu, (replace_first_absent _ _ _ Hq).
  destruct (0 <? universe_time)%Z; [|reflexivity].
  change (predicate galaxy_id)
    with (String "g" ("alaxy_id = '" +:+ galaxy_id +:+ "'")) in *.
  by apply replace_from_absent.
Qed.

Lemma where_in_other_case_leaves_query_unchanged_witness :
  rewrite "g1" "select * from star Where mass>10" 5
  = "select * from star Where mass>10".
Proof.
  apply where_in_other_case_leaves_query_unchanged; reflexivity.
Defined.






Lemma inject_before_other_case (skipped : list string) (keyword : string)
    (others : list string) (galaxy_id query : string) :
  Forall (fun k => contains k (upper query) = false) skipped ->
  contains keyword (upper query) = true ->
  contains keyword query = false ->
  inject_before (skipped ++ keyword :: others)%list galaxy_id query = query.
Proof.
  intros Hs Hu Hq. induction Hs as [|k skipped Hk _ IH].
  - cbn [List.app inject_before]. rewrite Hu. by apply replace_first_absent.
  - change ((k :: skipped) ++ keyword :: others)%list
      with (k :: (skipped ++ keyword :: others))%list.
    cbn [inject_before]. by rewrite Hk.
Qed.

(** Without [WHERE], when the first keyword found is written in another
    case, nothing is inserted and nothing is appended, even when a keyword
    tried later is there in upper case. *)
Theorem keyword_in_other_case_leaves_query_unchanged
    (skipped : list string) (keyword : string) (others : list string)
    (galaxy_id query : string) :
  (skipped ++ keyword :: others)%list = ["LIMIT"; "ORDER BY"; "GROUP BY"] ->
  contains "WHERE" (upper query) = false ->
  Forall (fun k => contains k (upper query) = false) skipped ->
  contains keyword (upper query) = true ->
  contains keyword query = false ->
  inject_galaxy galaxy_id query = query.
Proof.
  intros Hk Hw Hs Hu Hq. unfold inject_galaxy. rewrite Hw, <- Hk.
  by apply inject_before_other_case.
Qed.

Lemma keyword_in_other_case_leaves_query_unchanged_witness :
  inject_galaxy "g1" "select * from star limit 5 ORDER BY mass"
  = "select * from star limit 5 ORDER BY mass".
Proof.
  apply (keyword_in_other_case_leaves_query_unchanged [] "LIMIT" ["ORDER BY"; "GROUP BY"]);
    try reflexivity.
  constructor.
Defined.

Lemma inject_time_not_positive_witness :
  inject_time "g1" (-3) "SELECT * FROM star WHERE galaxy_id = 'g1'"
  = "SELECT * FROM star WHERE galaxy_id = 'g1'".
Proof. apply inject_time_not_positive. lia. Defined.

(** With a positive time, every occurrence of the predicate text gets a time
    clause right after it: the leftmost one does, and what follows it is
    treated in the same way. *)
Theorem time_clause_after_every_occurrence
    (galaxy_id pre post : string) (universe_time : Z) :
  (0 < universe_time)%Z ->
  leftmost (predicate galaxy_id) pre post ->
  inject_time galaxy_id universe_time (pre +:+ predicate galaxy_id +:+ post)
  = pre +:+ (predicate galaxy_id +:+ time_clause universe_time)
    +:+ inject_time galaxy_id universe_time post.
Proof.
  intros Ht Hl. unfold inject_time.
  apply Z.ltb_lt in Ht. rewrite Ht.
  change (predicate galaxy_id)
    with (String "g" ("alaxy_id = '" +:+ galaxy_id +:+ "'")) in *.
  by apply replace_leftmost.
Qed.

Lemma time_clause_after_every_occurrence_witness :
  inject_time "g1" 5 ("a " +:+ predicate "g1" +:+ " b galaxy_id = 'g1' c")
  = "a " +:+ (predicate "g1" +:+ time_clause 5)
    +:+ inject_time "g1" 5 " b galaxy_id = 'g1' c".
Proof.
  apply time_clause_after_every_occurrence; [lia|].
  apply leftmost_find. reflexivity.
Defined.

Lemma inject_time_single_witness :
  inject_time "g1" 5 ("SELECT * FROM star WHERE " +:+ predicate "g1" +:+ " AND mass>10")
  = "SELECT * FROM star WHERE " +:+ (predicate "g1" +:+ time_clause 5)
    +:+ " AND mass>10".
Proof.
  apply inject_time_single; [lia| |reflexivity].
  apply leftmost_find. reflexivity.
Defined.

(** The whole rewriting of a query with an upper-case [WHERE] and a positive
    time, when the predicate text stands in the rewritten query only where
    it was inserted: the predicate and one time clause go right after the
    leftmost [WHERE], joined to the caller's condition by [AND], and the
    rest of the query is kept. *)
Theorem rewrite_where_with_time (galaxy_id pre post : string) (universe_time : Z) :
  leftmost "WHERE" pre post ->
  (0 < universe_time)%Z ->
  leftmost (predicate galaxy_id) (pre +:+ "WHERE ") (" AND" +:+ post) ->
  contains (predicate galaxy_id) (" AND" +:+ post) = false ->
  rewrite galaxy_id (pre +:+ "WHERE" +:+ post) universe_time
  = pre +:+ "WHERE " +:+ predicate galaxy_id +:+ time_clause universe_time
    +:+ " AND" +:+ post.
Proof.
  intros Hw Ht Hl Hp. unfold rewrite.
  assert (inject_galaxy galaxy_id (pre +:+ "WHERE" +:+ post)
          = (pre +:+ "WHERE ") +:+ predicate galaxy_id +:+ " AND" +:+ post) as ->.
  { unfold inject_galaxy. rewrite !upper_app. change (upper "WHERE") with "WHERE".
    rewrite contains_app, (replace_first_leftmost _ _ _ _ Hw).
    by rewrite !app_assoc. }
  unfold inject_time. apply Z.ltb_lt in Ht. rewrite Ht.
  change (predicate galaxy_id)
    with (String "g" ("alaxy_id = '" +:+ galaxy_id +:+ "'")) in *.
  rewrite (replace_single _ _ _ _ _ Hl Hp). by rewrite !app_assoc.
Qed.

Lemma rewrite_where_with_time_witness :
  rewrite "spiral-sm-2arm-001"
    ("SELECT * FROM star " +:+ "WHERE" +:+ " stellar_mass_msun > 10 LIMIT 100") 5
  = "SELECT * FROM star WHERE galaxy_id = 'spiral-sm-2arm-001' AND universe_time = 5 AND stellar_mass_msun > 10 LIMIT 100".
Proof.
  apply (rewrite_where_with_time "spiral-sm-2arm-001" "SELECT * FROM star "
           " stellar_mass_msun > 10 LIMIT 100" 5).
  - apply leftmost_find. reflexivity.
  - lia.
  - apply leftmost_find. reflexivity.
  - reflexivity.
Defined.

End rewrite_properties.

(** ** Further properties of the executor *)

Section executor_properties.

Import PyStr CosmosClient.








(** While every status check answers a non-terminal state and the clock is
    within the timeout, the loop goes on: it has made one status check for
    each answer, with a sleep of one second after each, and has neither
    returned nor raised. *)
Theorem polling_goes_on_until_decided (self : t) (env : remote)
    (query query_id : string) :
  submission env = inr query_id ->
  Forall (fun q => is_terminal (State (response q)) = false
                   /\ (elapsed q <= inject_Z (timeout self))%Q) (polls env) ->
  _execute_query self env query
  = (Waiting,
     StartQueryExecution query (database self)
       ("s3://" +:+ results_bucket self +:+ "/queries/")
     :: polling_log query_id (length (polls env))).
Proof.
  intros Hs Hp. apply within_timeout_polling in Hp.
  unfold _execute_query. rewrite Hs.
  rewrite <- (List.app_nil_r (polls env)) at 1.
  rewrite (wait_keeps_polling _ _ _ _ Hp). cbn [wait fst snd].
  by rewrite List.app_nil_r.
Qed.

Lemma polling_goes_on_until_decided_witness :
  _execute_query two_second_client
    {| submission := inr "q-1";
       polls := [ {| response := {| State := "QUEUED"; StateChangeReason := None |};
                     elapsed := 0 |};
                  {| response := running; elapsed := 2 |} ];
       pages := [] |} "SELECT 1"
  = (Waiting,
     [StartQueryExecution "SELECT 1" "cosmological_production"
        "s3://cosmos-query-results-us-east-1/queries/";
      GetQueryExecution "q-1"; Sleep 1; GetQueryExecution "q-1"; Sleep 1]).
Proof.
  apply (polling_goes_on_until_decided two_second_client
           {| submission := inr "q-1";
              polls := [ {| response := {| State := "QUEUED"; StateChangeReason := None |};
                            elapsed := 0 |};
                         {| response := running; elapsed := 2 |} ];
              pages := [] |} "SELECT 1" "q-1").
  - reflexivity.
  - repeat constructor; apply Qle_bool_iff; reflexivity.
Defined.

End executor_properties.

(** ** Rows as dictionaries *)

Section rows_to_dicts.

Import PyStr CosmosClient.

Lemma to_int_proper (n : Z) :
  Z.to_int n <> Decimal.Pos Decimal.Nil /\ Z.to_int n <> Decimal.Neg Decimal.Nil.
Proof.
  destruct n as [|p|p]; cbn; split; try discriminate;
    intros [= H]; by apply DecimalPos.Unsigned.to_uint_nonnil in H.
Qed.

(** Different integers are written differently. *)
Lemma str_of_int_inj (n m : Z) : str_of_int n = str_of_int m -> n = m.
Proof.
  unfold str_of_int. intros H. apply DecimalZ.to_int_inj.
  destruct (to_int_proper n) as [Hn1 Hn2], (to_int_proper m) as [Hm1 Hm2].
  pose proof (NilZero.isi _ Hn1 Hn2) as En.
  pose proof (NilZero.isi _ Hm1 Hm2) as Em.
  rewrite H, Em in En. by injection En.
Qed.

Lemma col_names_lookup (num_cols i : nat) :
  col_names num_cols !! i
  = if decide (i < num_cols)%nat
    then Some ("col" +:+ str_of_int (Z.of_nat i)) else None.
Proof.
  unfold col_names. rewrite list_lookup_fmap.
  destruct (decide (i < num_cols)%nat) as [H|H].
  - by rewrite lookup_seq_lt.
  - by rewrite lookup_seq_ge by lia.
Qed.

Lemma col_names_NoDup (num_cols : nat) : NoDup (col_names num_cols).
Proof.
  unfold col_names. apply NoDup_fmap_2_strong; [|apply NoDup_seq].
  intros i j _ _ H. apply (inj (String.app "col")) in H.
  apply str_of_int_inj in H. lia.
Qed.

Lemma zip_lookup_key (names : list string) (r : list (option string)) (i : nat)
    (name : string) :
  NoDup names ->
  names !! i = Some name ->
  (list_to_map (zip names r) : gmap string (option string)) !! name = r !! i.
Proof.
  intros Hnd Hi. destruct (r !! i) as [v|] eqn:Hr.
  - apply elem_of_list_to_map_1.
    + apply (sublist_NoDup _ names); [exact Hnd|].
      clear. revert r. induction names as [|n names IH]; intros [|x r]; cbn;
        try apply sublist_nil_l. by apply sublist_skip.
    + apply list_elem_of_lookup. exists i.
      by rewrite lookup_zip_with, Hi, Hr.
  - apply not_elem_of_list_to_map_1. intros Hin.
    apply list_elem_of_fmap in Hin as ([k v] & -> & Hkv).
    apply list_elem_of_lookup in Hkv as [j Hj].
    rewrite lookup_zip_with in Hj.
    destruct (names !! j) as [k'|] eqn:Hk; [|discriminate].
    destruct (r !! j) as [v'|] eqn:Hv; [|discriminate].
    cbn in Hj. injection Hj as -> ->. cbn in Hi.
    assert (i = j) as -> by (eapply NoDup_lookup; eauto).
    congruence.
Qed.

(** [_rows_to_dicts] gives one dictionary for each row, in the order of the
    rows.  The dictionary of a row maps [col<i>] to the row's cell [i] as
    long as [i] is below the width of the first row, and holds nothing for
    [col<i>] beyond that width or beyond the row's own width: the cells of a
    longer row are lost. *)
Theorem rows_to_dicts_lookup (first : list (option string))
    (rest : list (list (option string))) (j : nat) (r : list (option string)) :
  (first :: rest) !! j = Some r ->
  exists d,
    _rows_to_dicts (first :: rest) !! j = Some d
    /\ forall i : nat,
         d !! ("col" +:+ str_of_int (Z.of_nat i))
         = if decide (i < length first)%nat then r !! i else None.
Proof.
  intros Hj. cbn [_rows_to_dicts].
  exists (list_to_map (zip (col_names (length first)) r)). split.
  - change (map ?f ?l) with (f <$> l). by rewrite list_lookup_fmap, Hj.
  - intros i. destruct (decide (i < length first)%nat) as [H|H].
    + apply zip_lookup_key; [apply col_names_NoDup|].
      rewrite col_names_lookup. by destruct (decide (i < length first)%nat).
    + apply not_elem_of_list_to_map_1. intros Hin.
      apply list_elem_of_fmap in Hin as ([k v] & Hk & Hkv). cbn in Hk. subst k.
      apply elem_of_zip_l in Hkv. apply list_elem_of_lookup in Hkv as [i' Hi'].
      rewrite col_names_lookup in Hi'.
      destruct (decide (i' < length first)%nat); [|discriminate].
      injection Hi' as Hi'. rewrite !app_nil_l in Hi'.
      apply str_of_int_inj in Hi'. lia.
Qed.

Lemma rows_to_dicts_lookup_witness :
  exists d,
    _rows_to_dicts [[Some "s1"; None]; [Some "s2"; Some "7"; Some "extra"]] !! 1%nat
    = Some d
    /\ forall i : nat,
         d !! ("col" +:+ str_of_int (Z.of_nat i))
         = if decide (i < 2)%nat
           then [Some "s2"; Some "7"; Some "extra"] !! i else None.
Proof.
  apply (rows_to_dicts_lookup [Some "s1"; None]
           [[Some "s2"; Some "7"; Some "extra"]] 1).
  reflexivity.
Defined.

(** There are as many dictionaries as rows, and none for no rows. *)
Lemma rows_to_dicts_length (rows : list (list (option string))) :
  length (_rows_to_dicts rows) = length rows.
Proof. destruct rows; [reflexivity|]. cbn [_rows_to_dicts]. apply List.length_map. Qed.

End rows_to_dicts.

(** ** The public methods *)

Section methods.

Import PyStr CosmosClient.

(** The credential is the [api_key] argument when that is a non-empty
    string, whatever the environment holds, and else the non-empty value of
    [COSMOS_API_KEY]; the client then keeps the region, timeout and database
    it was given, names its results bucket after the region, and has
    created the Athena client and then the S3 client for that region. *)
Theorem init_credential_precedence (environ : gmap string string)
    (api_key : option string) (region : string) (timeout : Z) (database : string)
    (key : string) :
  key <> "" ->
  api_key = Some key
  \/ ((api_key = None \/ api_key = Some "")
      /\ environ !! "COSMOS_API_KEY" = Some key) ->
  __init__ environ api_key region timeout database
  = (inr {| CosmosClient.api_key := Some key;
            CosmosClient.region := region;
            CosmosClient.timeout := timeout;
            CosmosClient.database := database;
            results_bucket := "cosmos-query-results-" +:+ region |},
     [CreateClient "athena" region; CreateClient "s3" region]).
Proof.
  intros Hne H. unfold __init__.
  assert (or_else api_key (environ !! "COSMOS_API_KEY") = Some key) as ->.
  { unfold or_else. destruct H as [-> | [[-> | ->] ->]]; [|done..].
    by destruct key. }
  by destruct key.
Qed.

Lemma init_credential_precedence_witness :
  __init__ {[ "COSMOS_API_KEY" := "from-env" ]} (Some "from-arg") "eu-west-1" 60 "db"
  = (inr {| CosmosClient.api_key := Some "from-arg";
            CosmosClient.region := "eu-west-1";
            CosmosClient.timeout := 60;
            CosmosClient.database := "db";
            results_bucket := "cosmos-query-results-eu-west-1" |},
     [CreateClient "athena" "eu-west-1"; CreateClient "s3" "eu-west-1"]).
Proof.
  apply (init_credential_precedence {[ "COSMOS_API_KEY" := "from-env" ]}
           (Some "from-arg") "eu-west-1" 60 "db" "from-arg").
  - discriminate.
  - left. reflexivity.
Defined.

Lemma execute_query_succeeds (self : t) (env : remote) (query query_id : string)
    (pre : list poll) (p : poll) (rest : list poll) :
  submission env = inr query_id ->
  polls env = (pre ++ p :: rest)%list ->
  Forall (fun q => is_terminal (State (response q)) = false
                   /\ (elapsed q <= inject_Z (timeout self))%Q) pre ->
  State (response p) = "SUCCEEDED" ->
  _execute_query self env query
  = (Return (fetch (pages env)),
     (StartQueryExecution query (database self)
        ("s3://" +:+ results_bucket self +:+ "/queries/")
      :: polling_log query_id (length pre)
         ++ [GetQueryExecution query_id; Paginate "get_query_results" query_id])%list).
Proof.
  intros Hsub Hpolls Hpre Hs. apply within_timeout_polling in Hpre.
  unfold _execute_query.
  rewrite Hsub, Hpolls, (wait_keeps_polling _ _ _ _ Hpre).
  cbn [wait]. rewrite Hs. cbn [String.eqb fst snd].
  by rewrite <- List.app_assoc.
Qed.

(** A client built by [__init__] that sees the query succeed: [query_galaxy]
    has submitted the rewritten SQL, once, against the database and the
    results location named after the region given at construction, and it
    returns one dictionary for each row of the pages but their first rows. *)
Theorem query_galaxy_end_to_end (environ : gmap string string)
    (api_key : option string) (region : string) (timeout : Z) (database : string)
    (self : t) (env : remote) (galaxy_id query : string) (universe_time : Z)
    (query_id : string) (pre : list poll) (p : poll) (rest : list poll) :
  fst (__init__ environ api_key region timeout database) = inr self ->
  submission env = inr query_id ->
  polls env = (pre ++ p :: rest)%list ->
  Forall (fun q => is_terminal (State (response q)) = false
                   /\ (elapsed q <= inject_Z timeout)%Q) pre ->
  State (response p) = "SUCCEEDED" ->
  query_galaxy self env galaxy_id query universe_time
  = (Return (_rows_to_dicts (fetch (pages env))),
     (StartQueryExecution (rewrite galaxy_id query universe_time) database
        ("s3://cosmos-query-results-" +:+ region +:+ "/queries/")
      :: polling_log query_id (length pre)
         ++ [GetQueryExecution query_id; Paginate "get_query_results" query_id])%list)
  /\ length (_rows_to_dicts (fetch (pages env))) = length (fetch (pages env)).
Proof.
  intros Hinit Hsub Hpolls Hpre Hs. unfold __init__ in Hinit.
  destruct (negb (truthy_opt (or_else api_key (environ !! "COSMOS_API_KEY"))));
    [discriminate|].
  cbn in Hinit. injection Hinit as <-.
  split; [|apply rows_to_dicts_length].
  unfold query_galaxy.
  by erewrite execute_query_succeeds by (cbn; eauto).
Qed.

Lemma query_galaxy_end_to_end_witness :
  query_galaxy two_second_client late_success "g1" "SELECT * FROM star" 0
  = (Return (_rows_to_dicts (fetch two_pages)),
     [StartQueryExecution "SELECT * FROM star WHERE galaxy_id = 'g1'"
        "cosmological_production" "s3://cosmos-query-results-us-east-1/queries/";
      GetQueryExecution "q-1"; Sleep 1; GetQueryExecution "q-1"; Sleep 1;
      GetQueryExecution "q-1"; Sleep 1; GetQueryExecution "q-1";
      Paginate "get_query_results" "q-1"])
  /\ length (_rows_to_dicts (fetch two_pages)) = 3%nat.
Proof.
  apply (query_galaxy_end_to_end ∅ (Some "key") "us-east-1" 2 "cosmological_production"
           two_second_client late_success "g1" "SELECT * FROM star" 0 "q-1"
           [ {| response := running; elapsed := 0 |};
             {| response := running; elapsed := 1 |};
             {| response := running; elapsed := 2 |} ]
           {| response := succeeded; elapsed := 3 |} []).
  - reflexivity.
  - reflexivity.
  - reflexivity.
  - repeat constructor; apply Qle_bool_iff; reflexivity.
  - reflexivity.
Defined.

(** Without pandas, [query_to_dataframe] raises [ImportError] before
    anything is sent to the service.  With pandas it makes the calls of
    [query_galaxy] and no other, wraps the dictionaries it returns, and lets
    its exceptions through unchanged. *)
Theorem query_to_dataframe_needs_pandas (self : t) (env : remote)
    (galaxy_id query : string) (universe_time : Z) :
  (exists msg,
     query_to_dataframe false self env galaxy_id query universe_time
     = (BuiltinError (ImportError msg), []))
  /\ snd (query_to_dataframe true self env galaxy_id query universe_time)
     = snd (query_galaxy self env galaxy_id query universe_time)
  /\ (forall results,
        fst (query_galaxy self env galaxy_id query universe_time) = Return results ->
        fst (query_to_dataframe true self env galaxy_id query universe_time)
        = Value (pd_DataFrame results))
  /\ (forall e,
        fst (query_galaxy self env galaxy_id query universe_time) = Raise e ->
        fst (query_to_dataframe true self env galaxy_id query universe_time)
        = Error e).
Proof.
  split; [by eexists|]. unfold query_to_dataframe. cbn [negb].
  destruct (query_galaxy self env galaxy_id query universe_time) as [[rs|e|] log];
    cbn; repeat split; intros ? [=]; by subst.
Qed.

End methods.

Section list_galaxies_properties.

Import PyStr CosmosClient.

Variable int_ : string -> exn + Z.

Lemma galaxy_of_well_formed (r : list (option string)) :
  well_formed int_ r ->
  exists g text,
    galaxy_of_row int_ r = Value g
    /\ r !! 0%nat = Some (galaxy_id g)
    /\ r !! 1%nat = Some (Some text)
    /\ int_ text = inr (system_count g).
Proof.
  intros (id & text & n & H0 & H1 & Hn).
  exists {| galaxy_id := id; system_count := n |}, text.
  unfold galaxy_of_row. by rewrite H0, H1, Hn.
Qed.

Lemma galaxies_of_well_formed (rows : list (list (option string))) :
  Forall (well_formed int_) rows ->
  exists gs,
    galaxies_of_rows int_ rows = Value gs
    /\ Forall2 (fun r g =>
                  exists text,
                    r !! 0%nat = Some (galaxy_id g)
                    /\ r !! 1%nat = Some (Some text)
                    /\ int_ text = inr (system_count g)) rows gs.
Proof.
  induction 1 as [|r rows Hr _ (gs & Hgs & Hall)].
  - exists []. split; [reflexivity|constructor].
  - destruct (galaxy_of_well_formed r Hr) as (g & text & Hg & H0 & H1 & Hn).
    exists (g :: gs). cbn [galaxies_of_rows]. rewrite Hg, Hgs.
    split; [reflexivity|]. constructor; [by exists text|done].
Qed.

(** When the query succeeds and every fetched row is well formed,
    [list_galaxies] has submitted its own query for the client's database,
    as written, and returns one entry for each fetched row, in order, with
    the row's first cell as identifier and the integer of its second cell as
    count. *)
Theorem list_galaxies_entries (self : t) (env : remote) (query_id : string)
    (pre : list poll) (p : poll) (rest : list poll) :
  submission env = inr query_id ->
  polls env = (pre ++ p :: rest)%list ->
  Forall (fun q => is_terminal (State (response q)) = false
                   /\ (elapsed q <= inject_Z (timeout self))%Q) pre ->
  State (response p) = "SUCCEEDED" ->
  Forall (well_formed int_) (fetch (pages env)) ->
  exists gs,
    list_galaxies int_ self env
    = (Value gs,
       (StartQueryExecution (list_galaxies_query (database self)) (database self)
          ("s3://" +:+ results_bucket self +:+ "/queries/")
        :: polling_log query_id (length pre)
           ++ [GetQueryExecution query_id; Paginate "get_query_results" query_id])%list)
    /\ Forall2 (fun r g =>
                  exists text,
                    r !! 0%nat = Some (galaxy_id g)
                    /\ r !! 1%nat = Some (Some text)
                    /\ int_ text = inr (system_count g)) (fetch (pages env)) gs.
Proof.
  intros Hsub Hpolls Hpre Hs Hrows.
  destruct (galaxies_of_well_formed _ Hrows) as (gs & Hgs & Hall).
  exists gs. split; [|done]. unfold list_galaxies.
  by rewrite (execute_query_succeeds _ _ _ _ _ _ _ Hsub Hpolls Hpre Hs), Hgs.
Qed.


End list_galaxies_properties.

Section list_galaxies_witnesses.

Import PyStr CosmosClient.

Lemma list_galaxies_entries_witness :
  exists gs,
    list_galaxies (fun text => if String.eqb text "10" then inr 10%Z
                               else if String.eqb text "7" then inr 7%Z
                               else inl (ValueError "invalid literal"))
      two_second_client
      {| submission := inr "q-1";
         polls :=
           [ {| response := succeeded;
                elapsed := 0 |} ];
         pages :=
           [ [ [text "galaxy_id"; text "system_count"];
               [text "g1"; text "10"];
               [text "g2"; text "7"] ] ] |}
    = (Value gs,
       [StartQueryExecution
          (list_galaxies_query "cosmological_production")
          "cosmological_production" "s3://cosmos-query-results-us-east-1/queries/";
        GetQueryExecution "q-1";
        Paginate "get_query_results" "q-1"])
    /\ length gs = 2%nat.
Proof.
  destruct (list_galaxies_entries
              (fun text => if String.eqb text "10" then inr 10%Z
                           else if String.eqb text "7" then inr 7%Z
                           else inl (ValueError "invalid literal"))
              two_second_client
              {| submission := inr "q-1";
                 polls :=
                   [ {| response := succeeded;
                        elapsed := 0 |} ];
                 pages :=
                   [ [ [text "galaxy_id"; text "system_count"];
                       [text "g1"; text "10"];
                       [text "g2"; text "7"] ] ] |}
              "q-1" []
              {| response := succeeded;
                 elapsed := 0 |} [])
    as (gs & Hgs & Hall).
  - reflexivity.
  - reflexivity.
  - constructor.
  - reflexivity.
  - repeat constructor.
    + by exists (Some "g1"), "10", 10%Z.
    + by exists (Some "g2"), "7", 7%Z.
  - exists gs. split; [exact Hgs|].
    apply Forall2_length in Hall. by rewrite <- Hall.
Defined.


End list_galaxies_witnesses.
